(** * Multitask model, collator and proportional task sampler (src/mtm.py)

    A shallow embedding of [mtm.py]: the shared-encoder [MultitaskModel], the
    [NLPDataCollator], the [StrIgnoreDevice] / [DataLoaderWithTaskname]
    batch tagging and the size-proportional [MultitaskDataloader].

    Python dictionaries keep insertion order and have unique keys; where the
    order is observable (the first task's encoder becomes the shared one, the
    index of a task in [task_name_list]) they are association lists, and the
    two dictionaries that are only ever looked up by key
    ([num_batches_dict], [dataloader_iter_dict]) are [gmap string _].
    Exceptions are values of [exn]; fallible code returns [result]. *)

From stdpp Require Import base list strings gmap.

Local Open Scope string_scope.
Local Open Scope list_scope.
Local Open Scope nat_scope.

(** ** Exceptions and the error monad *)

Inductive exn : Type :=
  | KeyError (key : string)
  | AttributeError (name : string)
  | TypeError (msg : string)
  | ValueError (msg : string)
  | IndexError (msg : string)
  | RuntimeError (msg : string)
  | StopIteration.

(** [str(e)] for the exceptions above: the argument the exception was built
    with. *)
Definition exn_message (e : exn) : string :=
  match e with
  | KeyError k => k
  | AttributeError n => n
  | TypeError m | ValueError m | IndexError m | RuntimeError m => m
  | StopIteration => ""
  end.

Inductive result (A : Type) : Type :=
  | Ok (a : A)
  | Err (e : exn).
Arguments Ok {A} a.
Arguments Err {A} e.

Global Instance result_bind : MBind result := λ A B k r,
  match r with
  | Ok a => k a
  | Err e => Err e
  end.
Global Instance result_ret : MRet result := λ A a, Ok a.

(** [[f(x) for x in xs]] where [f] may raise: the first exception wins. *)
Fixpoint list_comp {A B : Type} (f : A → result B) (xs : list A)
  : result (list B) :=
  match xs with
  | [] => Ok []
  | x :: xs' => y ← f x; ys ← list_comp f xs'; Ok (y :: ys)
  end.

(** ** Python dictionaries (insertion ordered) *)

Module Dict.

Definition dict (V : Type) : Type := list (string * V).

Fixpoint get {V : Type} (d : dict V) (k : string) : option V :=
  match d with
  | [] => None
  | (k', v) :: d' => if decide (k' = k) then Some v else get d' k
  end.

(** [d[k]] *)
Definition getitem {V : Type} (d : dict V) (k : string) : result V :=
  match get d k with
  | Some v => Ok v
  | None => Err (KeyError k)
  end.

(** [d[k] = v]: an existing key keeps its position, a new one goes last. *)
Fixpoint set {V : Type} (d : dict V) (k : string) (v : V) : dict V :=
  match d with
  | [] => [(k, v)]
  | (k', v') :: d' =>
      if decide (k' = k) then (k, v) :: d' else (k', v') :: set d' k v
  end.

Definition items {V : Type} (d : dict V) : list (string * V) := d.
Definition keys {V : Type} (d : dict V) : list string := d.*1.
Definition values {V : Type} (d : dict V) : list V := d.*2.

(** What every Python [dict] satisfies. *)
Definition wf {V : Type} (d : dict V) : Prop := NoDup (keys d).

End Dict.

Abbreviation dict := Dict.dict.

(** ** MultitaskModel *)

(** The shared store of encoder (sub)modules: a module object is a location,
    and what the location holds are its parameters. *)
Section Model.

Context {Params Config Kwargs Output : Type}.

(** The weights the model hub supplies for a submodule of a pretrained
    model; they belong to the [transformers] library. *)
Variable pretrained : string → Config → string → Params.

Definition loc : Type := nat.
Definition heap : Type := list Params.

Definition alloc (h : heap) (p : Params) : loc * heap := (List.length h, h ++ [p]).

(** A single-task model object: its class name and its submodule
    attributes, each a reference into the store. *)
Record Model : Type := mkModel {
  class_name : string;
  attrs : dict loc
}.

(** What calling a single-task model on keyword inputs gives, its output or
    its own exception; the computation belongs to the library as well. *)
Variable model_call : heap → Model → Kwargs → Output.

(** [getattr(model, name)] *)
Definition getattr (m : Model) (name : string) : result loc :=
  match Dict.get (attrs m) name with
  | Some l => Ok l
  | None => Err (AttributeError name)
  end.

(** [setattr(model, name, value)] *)
Definition setattr (m : Model) (name : string) (l : loc) : Model :=
  {| class_name := class_name m; attrs := Dict.set (attrs m) name l |}.

(** [MultitaskModel.get_encoder_attr_name] *)
Definition get_encoder_attr_name (model : Model) : result string :=
  let model_class_name := class_name model in
  if String.prefix "Bert" model_class_name then Ok "bert"
  else if String.prefix "Roberta" model_class_name then Ok "roberta"
  else if String.prefix "Albert" model_class_name then Ok "albert"
  else Err (KeyError ("Add support for new model " +:+ model_class_name)).

(** A model class of the hub: its name and the submodules its constructor
    builds. *)
Record ModelType : Type := mkModelType {
  mt_class_name : string;
  mt_submodules : list string
}.

Fixpoint init_submodules (model_name : string) (config : Config)
    (names : list string) (d : dict loc) (h : heap) : dict loc * heap :=
  match names with
  | [] => (d, h)
  | a :: names' =>
      let '(l, h1) := alloc h (pretrained model_name config a) in
      init_submodules model_name config names' (Dict.set d a l) h1
  end.

(** Modelled from the spec: [model_type.from_pretrained(model_name, config)]
    of the [transformers] library, which is not part of the repository. Every
    call instantiates a full pretrained model that owns its own, freshly
    allocated submodules (the encoder among them). *)
Definition from_pretrained (model_type : ModelType) (model_name : string)
    (config : Config) (h : heap) : Model * heap :=
  let '(d, h1) :=
    init_submodules model_name config (mt_submodules model_type) [] h in
  ({| class_name := mt_class_name model_type; attrs := d |}, h1).

Record MultitaskModel : Type := mkMultitaskModel {
  encoder : option loc;
  taskmodels_dict : dict Model
}.

(** [MultitaskModel.__init__] *)
Definition MultitaskModel_init (encoder : option loc)
    (taskmodels_dict : dict Model) : MultitaskModel :=
  {| encoder := encoder; taskmodels_dict := taskmodels_dict |}.

(** The [for] loop of [MultitaskModel.create], with the three variables it
    updates: [shared_encoder], [taskmodels_dict] and the store. The dropout
    layer that [create] builds before the loop is never used and is left
    out. *)
Fixpoint create_loop (model_name : string) (model_config_dict : dict Config)
    (items : list (string * ModelType)) (shared_encoder : option loc)
    (taskmodels_dict : dict Model) (h : heap)
  : result (option loc * dict Model * heap) :=
  match items with
  | [] => Ok (shared_encoder, taskmodels_dict, h)
  | (task_name, model_type) :: items' =>
      config ← Dict.getitem model_config_dict task_name;
      let '(model, h1) := from_pretrained model_type model_name config h in
      attr ← get_encoder_attr_name model;
      '(shared_encoder', model') ←
        match shared_encoder with
        | None => e ← getattr model attr; Ok (Some e, model)
        | Some s => Ok (Some s, setattr model attr s)
        end;
      create_loop model_name model_config_dict items' shared_encoder'
        (Dict.set taskmodels_dict task_name model') h1
  end.

(** [MultitaskModel.create] *)
Definition create (model_name : string) (model_type_dict : dict ModelType)
    (model_config_dict : dict Config) (h : heap)
  : result (MultitaskModel * heap) :=
  '(shared_encoder, taskmodels_dict, h') ←
    create_loop model_name model_config_dict (Dict.items model_type_dict)
      None [] h;
  Ok (MultitaskModel_init shared_encoder taskmodels_dict, h').

(** [MultitaskModel.forward]: the head mapping is indexed, and the model
    found there is called on the keyword inputs. *)
Definition forward (self : MultitaskModel) (h : heap) (task_name : string)
    (kwargs : Kwargs) : result Output :=
  model ← Dict.getitem (taskmodels_dict self) task_name;
  Ok (model_call h model kwargs).

(** The parameters a task model reads through its encoder attribute. *)
Definition encoder_params (h : heap) (model : Model) : result Params :=
  attr ← get_encoder_attr_name model;
  l ← getattr model attr;
  match h !! l with
  | Some p => Ok p
  | None => Err (RuntimeError "dangling module reference")
  end.

(** An optimizer step on the module at [l]: its parameters are overwritten
    in place. *)
Definition update_params (h : heap) (l : loc) (p : Params) : heap :=
  <[l := p]> h.

(** The encoder attribute of [model] refers to the module object [l]. *)
Definition encoder_is (l : loc) (model : Model) : Prop :=
  ∃ attr, get_encoder_attr_name model = Ok attr ∧ getattr model attr = Ok l.

(** The encoder of the first model that [create] instantiates: the first
    iteration of its loop, up to the read of the encoder attribute. *)
Definition first_model_encoder (model_name : string)
    (model_type_dict : dict ModelType) (model_config_dict : dict Config)
    (h : heap) : result loc :=
  match Dict.items model_type_dict with
  | [] => Err (ValueError "no task")
  | (task_name, model_type) :: _ =>
      config ← Dict.getitem model_config_dict task_name;
      let '(model, _) := from_pretrained model_type model_name config h in
      attr ← get_encoder_attr_name model;
      getattr model attr
  end.

End Model.

(** ** NLPDataCollator *)

Inductive dtype : Type := int64 | int32 | uint8 | float32 | float64.

Global Instance dtype_eq_dec : EqDecision dtype.
Proof. solve_decision. Defined.

(** [torch.long] and [torch.float] *)
Definition torch_long : dtype := int64.
Definition torch_float : dtype := float32.

Definition is_integer_dtype (d : dtype) : bool :=
  match d with
  | int64 | int32 | uint8 => true
  | float32 | float64 => false
  end.

Section Collator.

(** Tensor elements and their conversion to a dtype are the tensor
    library's; [Obj] stands for an example that is not a [dict], and
    [default_collate_batch] for [DataCollatorWithPadding().collate_batch]. *)
Context {scalar Obj : Type}.
Variable cast : dtype → scalar → scalar.

Record tensor : Type := mkTensor {
  t_dtype : dtype;
  t_shape : list nat;
  t_data : list scalar
}.

(** What a field of an example holds. *)
Inductive value : Type :=
  | VNone
  | VStr (s : string)
  | VTensor (t : tensor).

Inductive example : Type :=
  | EDict (d : dict value)
  | EOther (o : Obj).

Variable default_collate_batch :
  list example → result (option (dict tensor)).

(** [f[k]] for an example [f] *)
Definition example_getitem (f : example) (k : string) : result value :=
  match f with
  | EDict d => Dict.getitem d k
  | EOther _ => Err (TypeError "object is not subscriptable")
  end.

(** [v.dtype] *)
Definition value_dtype (v : value) : result dtype :=
  match v with
  | VTensor t => Ok (t_dtype t)
  | VStr _ => Err (AttributeError "dtype")
  | VNone => Err (AttributeError "dtype")
  end.

(** The Python scalar a list element converts to inside [torch.tensor]: a
    tensor of exactly one element. *)
Definition tensor_item (v : value) : result scalar :=
  match v with
  | VTensor t =>
      match t_data t with
      | [x] => Ok x
      | _ => Err (ValueError
                "only one element tensors can be converted to Python scalars")
      end
  | VStr _ => Err (TypeError "new(): invalid data type 'str'")
  | VNone => Err (RuntimeError "Could not infer dtype of NoneType")
  end.

(** Modelled from the spec: [torch.tensor(values, dtype=d)] of the tensor
    library, on a list of values: one tensor of one dimension holding the
    elements converted to [d]. *)
Definition torch_tensor (vs : list value) (d : dtype) : result tensor :=
  xs ← list_comp tensor_item vs;
  Ok {| t_dtype := d; t_shape := [List.length vs]; t_data := cast d <$> xs |}.

Definition as_tensor (v : value) : result tensor :=
  match v with
  | VTensor t => Ok t
  | VStr _ => Err (TypeError "expected Tensor as element of the sequence")
  | VNone => Err (TypeError "expected Tensor as element of the sequence")
  end.

(** Modelled from the spec: [torch.stack(values)] of the tensor library:
    a non-empty list of tensors of one shape and dtype is joined along a new
    leading dimension. *)
Definition torch_stack (vs : list value) : result tensor :=
  ts ← list_comp as_tensor vs;
  match ts with
  | [] => Err (RuntimeError "stack expects a non-empty TensorList")
  | t0 :: _ =>
      if forallb (λ t, bool_decide (t_shape t = t_shape t0)) ts then
        if forallb (λ t, bool_decide (t_dtype t = t_dtype t0)) ts then
          Ok {| t_dtype := t_dtype t0;
                t_shape := List.length ts :: t_shape t0;
                t_data := concat (t_data <$> ts) |}
        else Err (RuntimeError "expected all tensors to have one dtype")
      else Err (RuntimeError "stack expects each tensor to be equal size")
  end.

(** [batch[k] = t] where [batch] may still be [None] *)
Definition batch_setitem (batch : option (dict tensor)) (k : string)
    (t : tensor) : result (option (dict tensor)) :=
  match batch with
  | Some b => Ok (Some (Dict.set b k t))
  | None =>
      Err (TypeError "'NoneType' object does not support item assignment")
  end.

(** [isinstance(v, str)] *)
Definition is_str (v : value) : bool :=
  match v with VStr _ => true | _ => false end.

Definition is_none (v : value) : bool :=
  match v with VNone => true | _ => false end.

(** [[f[k] for f in features]] *)
Definition column (features : list example) (k : string)
  : result (list value) :=
  list_comp (λ f, example_getitem f k) features.

(** [torch.stack([f[k] for f in features])] *)
Definition stack_column (features : list example) (k : string)
  : result tensor :=
  vs ← column features k;
  torch_stack vs.

(** The test of the loop over the fields of the first example. *)
Definition is_stacked_field (k : string) (v : value) : bool :=
  bool_decide (k ≠ "labels") && negb (is_none v) && negb (is_str v).

(** The dtype the labels are converted to, given the first label. *)
Definition labels_dtype (first_label : tensor) : dtype :=
  if bool_decide (t_dtype first_label = int64) then torch_long
  else torch_float.

(** The loop [for k, v in first.items()] of [collate_batch]. *)
Fixpoint collate_fields (features : list example)
    (items : list (string * value)) (batch : option (dict tensor))
  : result (option (dict tensor)) :=
  match items with
  | [] => Ok batch
  | (k, v) :: items' =>
      if bool_decide (k ≠ "labels") && negb (is_none v) && negb (is_str v)
      then
        vs ← column features k;
        stacked ← torch_stack vs;
        batch' ← batch_setitem batch k stacked;
        collate_fields features items' batch'
      else collate_fields features items' batch
  end.

(** [NLPDataCollator.collate_batch] *)
Definition collate_batch (features : list example)
  : result (option (dict tensor)) :=
  match features with
  | [] => Err (IndexError "list index out of range")
  | first :: _ =>
      let batch : option (dict tensor) := None in
      match first with
      | EDict first =>
          batch ←
            match Dict.get first "labels" with
            | Some v =>
                if negb (is_none v) then
                  d ← value_dtype v;
                  labels ←
                    (if bool_decide (d = int64) then
                       vs ← column features "labels";
                       torch_tensor vs torch_long
                     else
                       vs ← column features "labels";
                       torch_tensor vs torch_float);
                  Ok (Some [("labels", labels)])
                else Ok batch
            | None => Ok batch
            end;
          collate_fields features (Dict.items first) batch
      | EOther _ => default_collate_batch features
      end
  end.

End Collator.

(** ** StrIgnoreDevice and DataLoaderWithTaskname *)

Inductive device : Type := cpu | cuda (index : nat).

(** A [str] subclass: a value of it is its string. *)
Record StrIgnoreDevice : Type := mkStrIgnoreDevice { sid_str : string }.

(** [StrIgnoreDevice.to] *)
Definition StrIgnoreDevice_to (self : StrIgnoreDevice) (d : device)
  : StrIgnoreDevice := self.

(** What one pass over a batch source gives to [MultitaskDataloader]:
    [len(loader)], the batches [iter(loader)] supplies before it is
    exhausted, and [loader.dataset]. *)
Class Loader (L B Ex : Type) : Type := {
  loader_len : L → nat;
  loader_batches : L → list B;
  loader_dataset : L → list Ex
}.

Section Tagging.

(** [T] are the tensors of a collated batch, [Ex] the examples of a
    dataset. *)
Context {T Ex : Type}.

(** A field of a tagged batch: one of the collated tensors or the injected
    task name. *)
Inductive bvalue : Type :=
  | BTensor (t : T)
  | BStr (s : StrIgnoreDevice).

(** [torch.utils.data.DataLoader], as far as the wrapper uses it: its
    attributes, its length and the batches of one pass. *)
Record DataLoader : Type := mkDataLoader {
  dl_batch_size : nat;
  dl_dataset : list Ex;
  dl_len : nat;
  dl_batches : list (dict T)
}.

Record DataLoaderWithTaskname : Type := mkDataLoaderWithTaskname {
  task_name : string;
  data_loader : DataLoader;
  batch_size : nat;
  dataset : list Ex
}.

(** [DataLoaderWithTaskname.__init__] *)
Definition DataLoaderWithTaskname_init (task_name : string)
    (data_loader : DataLoader) : DataLoaderWithTaskname :=
  {| task_name := task_name;
     data_loader := data_loader;
     batch_size := dl_batch_size data_loader;
     dataset := dl_dataset data_loader |}.

(** [DataLoaderWithTaskname.__len__] *)
Definition DataLoaderWithTaskname_len (self : DataLoaderWithTaskname) : nat :=
  dl_len (data_loader self).

(** [batch["task_name"] = StrIgnoreDevice(self.task_name)] *)
Definition tag_batch (self : DataLoaderWithTaskname) (batch : dict T)
  : dict bvalue :=
  Dict.set (prod_map id BTensor <$> batch) "task_name"
    (BStr (mkStrIgnoreDevice (task_name self))).

(** [DataLoaderWithTaskname.__iter__]: the batches it yields, in order. *)
Definition DataLoaderWithTaskname_iter (self : DataLoaderWithTaskname)
  : list (dict bvalue) :=
  tag_batch self <$> dl_batches (data_loader self).

Global Instance DataLoaderWithTaskname_loader
  : Loader DataLoaderWithTaskname (dict bvalue) Ex := {|
  loader_len := DataLoaderWithTaskname_len;
  loader_batches := DataLoaderWithTaskname_iter;
  loader_dataset := dataset
|}.

End Tagging.

(** ** MultitaskDataloader *)

(** How a generator ends: it returns, or an exception leaves its body. *)
Inductive outcome : Type :=
  | Finished
  | Raised (e : exn).

(** A [StopIteration] that leaves the body of a generator reaches the
    consumer as a [RuntimeError] (PEP 479); other exceptions pass through. *)
Definition generator_raise (e : exn) : exn :=
  match e with
  | StopIteration => RuntimeError "generator raised StopIteration"
  | _ => e
  end.

Section Multitask.

Context {L B Ex : Type} `{!Loader L B Ex}.

(** The permutation [np.random.shuffle] applies in this pass. *)
Variable shuffle : list nat → list nat.

Record MultitaskDataloader : Type := mkMultitaskDataloader {
  dataloader_dict : dict L;
  num_batches_dict : gmap string nat;
  task_name_list : list string;
  mt_dataset : list (option Ex)
}.

(** [MultitaskDataloader.__init__] *)
Definition MultitaskDataloader_init (dataloader_dict : dict L)
  : MultitaskDataloader :=
  {| dataloader_dict := dataloader_dict;
     num_batches_dict :=
       list_to_map
         ((λ '(task_name, dataloader), (task_name, loader_len dataloader))
            <$> Dict.items dataloader_dict);
     task_name_list := Dict.keys dataloader_dict;
     mt_dataset :=
       replicate
         (sum_list ((λ dataloader, List.length (loader_dataset dataloader))
                      <$> Dict.values dataloader_dict))
         None |}.

(** [MultitaskDataloader.__len__] *)
Definition MultitaskDataloader_len (self : MultitaskDataloader) : nat :=
  map_fold (λ _ n acc, n + acc) 0 (num_batches_dict self).

(** How often the task index [i] occurs in a list of choices, and the part
    of a trace that the iterator of [task_name] supplied. *)
Definition count_of (i : nat) (choices : list nat) : nat :=
  List.length (filter (λ c, c = i) choices).

Definition supplied_by (task_name : string) (tr : list (string * B))
  : list (string * B) :=
  filter (λ e, e.1 = task_name) tr.

(** The loop that fills [task_choice_list], from index [i] on. *)
Fixpoint build_task_choice_list (i : nat) (names : list string)
    (num_batches : gmap string nat) : result (list nat) :=
  match names with
  | [] => Ok []
  | task_name :: names' =>
      match num_batches !! task_name with
      | Some n =>
          rest ← build_task_choice_list (S i) names' num_batches;
          Ok (replicate n i ++ rest)
      | None => Err (KeyError task_name)
      end
  end.

(** The loop [for task_choice in task_choice_list]: every step indexes
    [task_name_list], looks the task's iterator up and advances it. The
    result lists what was yielded, each batch next to the task whose
    iterator supplied it, and how the loop ended. *)
Fixpoint iter_loop (names : list string) (iters : gmap string (list B))
    (task_choice_list : list nat) : list (string * B) * outcome :=
  match task_choice_list with
  | [] => ([], Finished)
  | task_choice :: rest =>
      match names !! task_choice with
      | None => ([], Raised (IndexError "list index out of range"))
      | Some task_name =>
          match iters !! task_name with
          | None => ([], Raised (KeyError task_name))
          | Some [] => ([], Raised StopIteration)
          | Some (batch :: remaining) =>
              let '(ys, o) :=
                iter_loop names (<[task_name := remaining]> iters) rest in
              ((task_name, batch) :: ys, o)
          end
      end
  end.

(** The body of [MultitaskDataloader.__iter__], run to its end. *)
Definition iter_trace (self : MultitaskDataloader)
  : list (string * B) * outcome :=
  match build_task_choice_list 0 (task_name_list self)
          (num_batches_dict self) with
  | Err e => ([], Raised e)
  | Ok task_choice_list =>
      let task_choice_list := shuffle task_choice_list in
      let dataloader_iter_dict : gmap string (list B) :=
        list_to_map
          ((λ '(task_name, dataloader),
              (task_name, loader_batches dataloader))
             <$> Dict.items (dataloader_dict self)) in
      iter_loop (task_name_list self) dataloader_iter_dict task_choice_list
  end.

(** [MultitaskDataloader.__iter__], as its consumer sees it: the batches
    yielded, and the end of the generator. *)
Definition MultitaskDataloader_iter (self : MultitaskDataloader)
  : list B * outcome :=
  let '(tr, o) := iter_trace self in
  (tr.*2,
   match o with
   | Finished => Finished
   | Raised e => Raised (generator_raise e)
   end).

End Multitask.

(** ** What [create] needs of a model class *)

(** The encoder attribute that [get_encoder_attr_name] finds for the models
    of a class: it depends on the class name alone. *)
Definition encoder_attr_of_type (model_type : ModelType) : result string :=
  get_encoder_attr_name
    {| class_name := mt_class_name model_type; attrs := [] |}.



(** The models of two different tasks have no module in common but [s]. *)
Definition share_only (s : loc) (taskmodels_dict : dict Model) : Prop :=
  ∀ t1 t2 m1 m2 a1 a2 l,
    t1 ≠ t2 →
    Dict.get taskmodels_dict t1 = Some m1 →
    Dict.get taskmodels_dict t2 = Some m2 →
    getattr m1 a1 = Ok l → getattr m2 a2 = Ok l →
    l = s.

(** ** MultitaskTrainer *)

(** The two samplers the trainer chooses between. *)
Inductive Sampler (Ex : Type) : Type :=
  | RandomSampler (data_source : list Ex)
  | DistributedSampler (dataset : list Ex).
Arguments RandomSampler {Ex} data_source.
Arguments DistributedSampler {Ex} dataset.

(** The two fields of [self.args] that the trainer reads. *)
Record TrainingArguments : Type := mkTrainingArguments {
  local_rank : Z;
  train_batch_size : nat
}.

(** [{k: f(k, v) for k, v in items}] where [f] may raise *)
Fixpoint dict_comp {V W : Type} (f : string → V → result W)
    (items : list (string * V)) (acc : dict W) : result (dict W) :=
  match items with
  | [] => Ok acc
  | (k, v) :: items' => w ← f k v; dict_comp f items' (Dict.set acc k w)
  end.

Section Trainer.

(** [Collate] is the type of the collator object. What a pass over
    [DataLoader(dataset, batch_size=..., sampler=..., collate_fn=...)]
    computes, its length and its batches, belongs to the tensor library. *)
Context {T Ex Collate : Type}.
Variable torch_pass :
  list Ex → nat → Sampler Ex → Collate → nat * list (dict T).

(** [DataLoader(dataset, batch_size, sampler, collate_fn)]: the loader keeps
    the dataset and the batch size as attributes. *)
Definition torch_DataLoader (dataset : list Ex) (batch_size : nat)
    (sampler : Sampler Ex) (collate_fn : Collate) : @DataLoader T Ex :=
  {| dl_batch_size := batch_size;
     dl_dataset := dataset;
     dl_len := (torch_pass dataset batch_size sampler collate_fn).1;
     dl_batches := (torch_pass dataset batch_size sampler collate_fn).2 |}.

Record MultitaskTrainer : Type := mkMultitaskTrainer {
  train_dataset : option (dict (list Ex));
  args : TrainingArguments;
  data_collator : Collate
}.

(** [MultitaskTrainer.get_single_train_dataloader]; the TPU branch is
    guarded by [False and ...] and never taken. *)
Definition get_single_train_dataloader (self : MultitaskTrainer)
    (task_name : string) (train_dataset' : list Ex)
  : result (@DataLoaderWithTaskname T Ex) :=
  match train_dataset self with
  | None => Err (ValueError "Trainer: training requires a train_dataset.")
  | Some _ =>
      let train_sampler :=
        if decide (local_rank (args self) = (-1)%Z)
        then RandomSampler train_dataset'
        else DistributedSampler train_dataset' in
      let data_loader :=
        DataLoaderWithTaskname_init task_name
          (torch_DataLoader train_dataset'
             (train_batch_size (args self)) train_sampler
             (data_collator self)) in
      Ok data_loader
  end.

(** [MultitaskTrainer.get_train_dataloader]: [self.train_dataset.items()] is
    evaluated first, and raises when [train_dataset] is [None]. *)
Definition get_train_dataloader (self : MultitaskTrainer)
  : result (@MultitaskDataloader (@DataLoaderWithTaskname T Ex) Ex) :=
  match train_dataset self with
  | None =>
      Err (AttributeError "'NoneType' object has no attribute 'items'")
  | Some datasets =>
      sources ←
        dict_comp (λ task_name task_dataset,
                     get_single_train_dataloader self task_name task_dataset)
          (Dict.items datasets) [];
      Ok (MultitaskDataloader_init sources)
  end.

End Trainer.

(** ** Sample inputs *)

(** A tensor of no dimension, and an example with an int64 label, a float
    field, a string and a null field. *)
Definition scalar_tensor (d : dtype) (x : nat) : @tensor nat :=
  {| t_dtype := d; t_shape := []; t_data := [x] |}.

Definition labelled_example (label x : nat) (text : string)
  : @example nat unit :=
  EDict [("labels", VTensor (scalar_tensor int64 label));
         ("x", VTensor (scalar_tensor float32 x));
         ("text", VStr text);
         ("idx", VNone)].

(** A task source over a dataset of [size] examples that declares
    [declared] batches and whose pass supplies [batches]. *)
Definition sample_source (name : string) (size declared : nat)
    (batches : list (dict nat)) : @DataLoaderWithTaskname nat nat :=
  DataLoaderWithTaskname_init name
    {| dl_batch_size := 2; dl_dataset := seq 0 size;
       dl_len := declared; dl_batches := batches |}.

(** Task "A" with 3 batches and task "B" with 2. *)
Definition sample_sources : dict (@DataLoaderWithTaskname nat nat) :=
  [("A", sample_source "A" 6 3 [[("x", 1)]; [("x", 2)]; [("x", 3)]]);
   ("B", sample_source "B" 4 2 [[("x", 4)]; [("x", 5)]])].

(** The same, but the pass over task "A" supplies 2 of its 3 batches. *)
Definition short_sources : dict (@DataLoaderWithTaskname nat nat) :=
  [("A", sample_source "A" 6 3 [[("x", 1)]; [("x", 2)]]);
   ("B", sample_source "B" 4 2 [[("x", 4)]; [("x", 5)]])].

(** A BERT and a RoBERTa classifier. *)
Definition sample_model_types : dict ModelType :=
  [("sentiment",
    {| mt_class_name := "BertForSequenceClassification";
       mt_submodules := ["bert"; "dropout"; "classifier"] |});
   ("ner",
    {| mt_class_name := "RobertaForTokenClassification";
       mt_submodules := ["roberta"; "classifier"] |})].

(** Weights named after where they come from. *)
Definition sample_pretrained (model_name : string) (config : nat)
    (submodule : string) : string * nat * string :=
  (model_name, config, submodule).

(** Task "A" declares 2 batches and its pass supplies 3. *)
Definition surplus_sources : dict (@DataLoaderWithTaskname nat nat) :=
  [("A", sample_source "A" 6 2 [[("x", 1)]; [("x", 2)]; [("x", 3)]]);
   ("B", sample_source "B" 4 2 [[("x", 4)]; [("x", 5)]])].

(** A loader pass with one batch per example, and trainers with and without
    a training set. *)
Definition sample_torch_pass (dataset : list nat) (batch_size : nat)
    (sampler : Sampler nat) (collate_fn : unit) : nat * list (dict nat) :=
  (List.length dataset, (λ x, [("x", x)]) <$> dataset).

Definition sample_trainer : @MultitaskTrainer nat unit :=
  {| train_dataset := Some [("A", [1; 2; 3]); ("B", [4; 5])];
     args := {| local_rank := (-1)%Z; train_batch_size := 8 |};
     data_collator := tt |}.


Definition sample_configs : dict nat := [("sentiment", 2); ("ner", 9)].

(** * Properties *)

(** ** Dictionaries *)

Module DictFacts.
Import Dict.

Section Facts.
Context {V : Type}.
Implicit Types (d : dict V) (k : string) (v : V).

Lemma get_set_eq d k v : get (set d k v) k = Some v.
Proof.
  induction d as [|[k' v'] d IH]; simpl.
  - by rewrite decide_True.
  - destruct (decide (k' = k)) as [->|Hne]; simpl.
    + by rewrite decide_True.
    + by rewrite decide_False.
Qed.

Lemma get_set_ne d k k' v : k ≠ k' → get (set d k v) k' = get d k'.
Proof.
  intros Hne. induction d as [|[k0 v0] d IH]; simpl.
  - by rewrite decide_False.
  - destruct (decide (k0 = k)) as [->|Hne0]; simpl.
    + by rewrite !decide_False.
    + destruct (decide (k0 = k')); done.
Qed.

Lemma get_set d k k' v :
  get (set d k v) k' = if decide (k = k') then Some v else get d k'.
Proof.
  destruct (decide (k = k')) as [<-|Hne].
  - apply get_set_eq.
  - by apply get_set_ne.
Qed.

Lemma get_None d k : get d k = None ↔ k ∉ keys d.
Proof.
  unfold keys. induction d as [|[k' v'] d IH]; simpl.
  - split; [intros _; apply not_elem_of_nil | done].
  - rewrite not_elem_of_cons. destruct (decide (k' = k)) as [->|Hne].
    + split; [done | intros [? _]; done].
    + rewrite IH. split; [intros ?; split; [congruence | done] | intros [_ ?]; done].
Qed.

Lemma get_Some_elem_of d k v : get d k = Some v → (k, v) ∈ d.
Proof.
  induction d as [|[k' v'] d IH]; simpl; [done|].
  destruct (decide (k' = k)) as [->|Hne].
  - intros [= ->]. apply elem_of_cons. by left.
  - intros H. apply elem_of_cons. right. by apply IH.
Qed.

Lemma elem_of_get d k v : wf d → (k, v) ∈ d → get d k = Some v.
Proof.
  unfold wf, keys. induction d as [|[k' v'] d IH]; simpl.
  - intros _ H. by apply elem_of_nil in H.
  - rewrite NoDup_cons. intros [Hnin Hnd] Hin.
    apply elem_of_cons in Hin as [[= -> ->]|Hin].
    + by rewrite decide_True.
    + rewrite decide_False; [by apply IH|].
      intros ->. apply Hnin. by apply (list_elem_of_fmap_2 fst _ (k, v)).
Qed.

Lemma getitem_Ok d k v : getitem d k = Ok v ↔ get d k = Some v.
Proof. unfold getitem. destruct (get d k); split; congruence. Qed.

End Facts.
End DictFacts.

(** Closes [Dict.wf d] for a literal [d]. *)
Ltac solve_wf :=
  unfold Dict.wf, Dict.keys; simpl;
  repeat (apply NoDup_cons_2;
          [rewrite ?not_elem_of_cons;
           repeat split; (discriminate || apply not_elem_of_nil) |]);
  apply NoDup_nil_2.

(** ** The error monad *)

Lemma bind_Ok {A B : Type} (r : result A) (k : A → result B) (b : B) :
  r ≫= k = Ok b ↔ ∃ a, r = Ok a ∧ k a = Ok b.
Proof.
  destruct r as [a|e]; simpl.
  - split; [eauto | intros (a' & [= <-] & ?); done].
  - split; [done | intros (a' & ? & _); done].
Qed.

(** ** Architecture lookup *)

Section ModelFacts.

Context {Params Config Kwargs Output : Type}.
Variable pretrained : string → Config → string → Params.
Variable model_call : @heap Params → Model → Kwargs → Output.

Lemma prefix_Roberta_not_Bert (s : string) :
  String.prefix "Roberta" s = true → String.prefix "Bert" s = false.
Proof.
  destruct s as [|c s]; [done|].
  unfold String.prefix; fold String.prefix.
  destruct (Ascii.ascii_dec _ c) as [<-|]; [done | done].
Qed.

Lemma prefix_Albert_not_Bert (s : string) :
  String.prefix "Albert" s = true → String.prefix "Bert" s = false.
Proof.
  destruct s as [|c s]; [done|].
  unfold String.prefix; fold String.prefix.
  destruct (Ascii.ascii_dec _ c) as [<-|]; [done | done].
Qed.

Lemma prefix_Albert_not_Roberta (s : string) :
  String.prefix "Albert" s = true → String.prefix "Roberta" s = false.
Proof.
  destruct s as [|c s]; [done|].
  unfold String.prefix; fold String.prefix.
  destruct (Ascii.ascii_dec _ c) as [<-|]; [done | done].
Qed.

(** C3: [get_encoder_attr_name] answers "bert", "roberta" and "albert" for
    class names that start with "Bert", "Roberta" and "Albert", and raises
    the [KeyError] that names the unsupported class for every class name with
    none of the three prefixes. *)
Theorem get_encoder_attr_name_by_prefix (model : Model) :
  (String.prefix "Bert" (class_name model) = true →
     get_encoder_attr_name model = Ok "bert") ∧
  (String.prefix "Roberta" (class_name model) = true →
     get_encoder_attr_name model = Ok "roberta") ∧
  (String.prefix "Albert" (class_name model) = true →
     get_encoder_attr_name model = Ok "albert") ∧
  (String.prefix "Bert" (class_name model) = false →
   String.prefix "Roberta" (class_name model) = false →
   String.prefix "Albert" (class_name model) = false →
     get_encoder_attr_name model =
       Err (KeyError ("Add support for new model " +:+ class_name model))).
Proof.
  unfold get_encoder_attr_name; cbv zeta.
  repeat split.
  - by intros ->.
  - intros H. by rewrite (prefix_Roberta_not_Bert _ H), H.
  - intros H.
    by rewrite (prefix_Albert_not_Bert _ H), (prefix_Albert_not_Roberta _ H), H.
  - by intros -> -> ->.
Qed.

(** ** Encoder sharing *)

Lemma init_submodules_bounds model_name config names (d : dict loc) h d' h' :
  init_submodules pretrained model_name config names d h = (d', h') →
  (∀ a l, Dict.get d a = Some l → l < List.length h) →
  List.length h ≤ List.length h' ∧
  (∀ a l, Dict.get d' a = Some l → l < List.length h').
Proof.
  revert d h. induction names as [|a names IH]; intros d h; simpl.
  - intros [= <- <-] Hd. split; [lia | done].
  - intros Hinit Hd. apply IH in Hinit as [Hle Hd'].
    + split; [|done]. rewrite length_app in Hle. simpl in Hle. lia.
    + intros a' l. rewrite DictFacts.get_set, length_app. simpl.
      case_decide; [intros [= <-]; lia|].
      intros Hl. apply Hd in Hl. lia.
Qed.

Lemma from_pretrained_bounds model_type model_name config h model h1 :
  from_pretrained pretrained model_type model_name config h = (model, h1) →
  class_name model = mt_class_name model_type ∧
  List.length h ≤ List.length h1 ∧
  (∀ a l, getattr model a = Ok l → l < List.length h1).
Proof.
  unfold from_pretrained.
  destruct (init_submodules _ _ _ _ _ _) as [d h2] eqn:Hinit.
  intros [= <- <-]. apply init_submodules_bounds in Hinit as [Hle Hd]; [|done].
  split; [done|]. split; [done|].
  intros a l. unfold getattr; simpl.
  destruct (Dict.get d a) as [l'|] eqn:Hget; [|done].
  intros [= <-]. by eapply Hd.
Qed.

Lemma encoder_is_setattr model attr l :
  get_encoder_attr_name model = Ok attr →
  encoder_is l (setattr model attr l).
Proof.
  intros Hattr. exists attr. split; [done|].
  unfold getattr, setattr; simpl. by rewrite DictFacts.get_set_eq.
Qed.

(** Once the shared encoder is chosen, the loop keeps it and rebinds the
    encoder attribute of every further model to it. *)
Lemma create_loop_shared model_name cfgs items s tmd h s' tmd' h' :
  create_loop pretrained model_name cfgs items (Some s) tmd h
    = Ok (s', tmd', h') →
  s' = Some s ∧ List.length h ≤ List.length h' ∧
  ((∀ t m, Dict.get tmd t = Some m → encoder_is s m) →
   ∀ t m, Dict.get tmd' t = Some m → encoder_is s m) ∧
  (∀ t, is_Some (Dict.get tmd t) ∨ t ∈ items.*1 → is_Some (Dict.get tmd' t)).
Proof.
  revert tmd h. induction items as [|[t1 mt1] items IH]; intros tmd h; simpl.
  - intros [= <- <- <-]. repeat split; [lia | done |].
    intros t [?|Hin]; [done|]. by apply elem_of_nil in Hin.
  - intros Hrun. apply bind_Ok in Hrun as (config & _ & Hrun).
    destruct (from_pretrained _ _ _ _ _) as [model h1] eqn:Hfp.
    apply from_pretrained_bounds in Hfp as (_ & Hle & _).
    apply bind_Ok in Hrun as (attr & Hattr & Hrun). simpl in Hrun.
    apply IH in Hrun as (-> & Hle' & Hkeep & Hkeys).
    split; [done|]. split; [lia|]. split.
    + intros Htmd. apply Hkeep. intros t m.
      rewrite DictFacts.get_set. case_decide; [|by apply Htmd].
      intros [= <-]. by apply encoder_is_setattr.
    + intros t Ht. apply Hkeys. rewrite DictFacts.get_set.
      case_decide; [left; eauto|].
      destruct Ht as [?|Hin]; [by left|]. right.
      simpl in Hin. apply elem_of_cons in Hin as [->|?]; done.
Qed.

(** C2: when [create] returns for a non-empty task mapping, the encoder
    attribute of every task model in [taskmodels_dict] refers to one object,
    the encoder of the first model instantiated; the [encoder] field of the
    returned [MultitaskModel] is that object; every task has its model; and
    new parameters written to the shared encoder are what every task model
    reads through its encoder attribute. *)
Theorem create_shares_first_encoder model_name
    (model_type_dict : dict ModelType) (model_config_dict : dict Config)
    (h : heap) (mm : MultitaskModel) (h' : heap) :
  model_type_dict ≠ [] →
  create pretrained model_name model_type_dict model_config_dict h
    = Ok (mm, h') →
  ∃ shared : loc,
    encoder mm = Some shared ∧
    first_model_encoder pretrained model_name model_type_dict
      model_config_dict h = Ok shared ∧
    (∀ t, t ∈ Dict.keys model_type_dict →
       is_Some (Dict.get (taskmodels_dict mm) t)) ∧
    (∀ t m, Dict.get (taskmodels_dict mm) t = Some m → encoder_is shared m) ∧
    (∀ p t m, Dict.get (taskmodels_dict mm) t = Some m →
       encoder_params (update_params h' shared p) m = Ok p).
Proof.
  intros Hne Hcreate. unfold create in Hcreate.
  apply bind_Ok in Hcreate as ([[s tmd] h2] & Hloop & [= <- <-]).
  unfold first_model_encoder, Dict.items in *.
  destruct model_type_dict as [|[t1 mt1] items]; [done|]. clear Hne.
  simpl in Hloop.
  apply bind_Ok in Hloop as (config & Hcfg & Hloop). rewrite Hcfg. simpl.
  destruct (from_pretrained _ _ _ _ _) as [model h1] eqn:Hfp.
  apply from_pretrained_bounds in Hfp as (_ & _ & Hbound).
  apply bind_Ok in Hloop as (attr & Hattr & Hloop). rewrite Hattr. simpl.
  apply bind_Ok in Hloop as ([s1 model'] & Hfirst & Hloop).
  apply bind_Ok in Hfirst as (e & Hget & [= <- <-]).
  apply create_loop_shared in Hloop as (-> & Hle & Hkeep & Hkeys).
  assert (Hall : ∀ t m, Dict.get tmd t = Some m → encoder_is e m).
  { apply Hkeep. intros t m. simpl. case_decide; [|done].
    intros [= <-]. by exists attr. }
  exists e. simpl. split; [done|]. split; [done|]. split; [|split; [done|]].
  - intros t Ht. apply Hkeys. unfold Dict.keys in Ht. simpl in Ht.
    apply elem_of_cons in Ht as [->|?]; [left | by right].
    simpl. rewrite decide_True; eauto.
  - intros p t m Hm. apply Hall in Hm as (a & Ha & Hga).
    unfold encoder_params, update_params. rewrite Ha. simpl. rewrite Hga. simpl.
    rewrite list_lookup_insert_eq; [done|].
    apply Hbound in Hget. lia.
Qed.

(** ** Routing *)

(** C6: [forward] raises exactly when the task name is absent from the head
    mapping, the exception then being the [KeyError] of that name, and
    otherwise it is the call of that task's model on the keyword inputs. *)
Theorem forward_routes (self : MultitaskModel) (h : heap) (task_name : string)
    (kwargs : Kwargs) :
  ((∃ e, forward model_call self h task_name kwargs = Err e) ↔
     Dict.get (taskmodels_dict self) task_name = None) ∧
  (Dict.get (taskmodels_dict self) task_name = None →
     forward model_call self h task_name kwargs = Err (KeyError task_name)) ∧
  (∀ model, Dict.get (taskmodels_dict self) task_name = Some model →
     forward model_call self h task_name kwargs
       = Ok (model_call h model kwargs)).
Proof.
  unfold forward, Dict.getitem.
  destruct (Dict.get (taskmodels_dict self) task_name) as [model|]; simpl.
  - split; [|split]; [|done|by intros ? [= <-]].
    split; [intros [e ?]; done | done].
  - split; [|split]; [|done|done]. split; [done | eauto].
Qed.

(** C8, as amended: for an empty task mapping [create] returns a model whose
    encoder is still [None] and whose head mapping is empty, and every
    [forward] call on it raises the [KeyError] of the task name asked for. *)
Theorem create_empty_forward_KeyError model_name
    (model_config_dict : dict Config) (h : heap) :
  ∃ mm,
    create pretrained model_name [] model_config_dict h = Ok (mm, h) ∧
    encoder mm = None ∧
    taskmodels_dict mm = [] ∧
    ∀ h' task_name kwargs,
      forward model_call mm h' task_name kwargs = Err (KeyError task_name).
Proof. eexists. repeat split. Qed.

End ModelFacts.

(** C8 as the spec words it fails: on the model [create] builds for an empty
    task mapping, [forward] raises [KeyError] with the task name as its
    message, not an error that reads "no tasks configured". *)
Lemma create_empty_forward_message :
  ∃ (mm : MultitaskModel) (e : exn),
    create (λ _ (_ : unit) _, tt) "bert-base-cased" [] [] [] = Ok (mm, [])
    ∧ encoder mm = None
    ∧ forward (Params := unit) (λ _ _ (_ : unit), tt) mm [] "sentiment" tt
        = Err e
    ∧ exn_message e ≠ "no tasks configured".
Proof.
  eexists _, _. split; [reflexivity|]. split; [reflexivity|].
  split; [reflexivity|]. simpl. discriminate.
Qed.

(** ** Batch tagging *)

Section TaggingFacts.

Context {T Ex : Type}.

(** C9: every batch a [DataLoaderWithTaskname] yields has a "task_name"
    field that [to] maps to itself for every device, and whose string is the
    task name of the wrapper. *)
Theorem task_name_field_inert (self : @DataLoaderWithTaskname T Ex) :
  Forall
    (λ batch : dict bvalue,
       ∃ field : StrIgnoreDevice,
         Dict.get batch "task_name" = Some (BStr field)
         ∧ (∀ d : device, StrIgnoreDevice_to field d = field)
         ∧ sid_str field = task_name self)
    (DataLoaderWithTaskname_iter self).
Proof.
  unfold DataLoaderWithTaskname_iter. apply Forall_fmap, Forall_true.
  intros batch. simpl. eexists. split; [apply DictFacts.get_set_eq|].
  split; [done | done].
Qed.

(** The wrapper yields one batch for each batch of the wrapped loader. *)
Lemma DataLoaderWithTaskname_iter_length (self : @DataLoaderWithTaskname T Ex) :
  List.length (DataLoaderWithTaskname_iter self)
    = List.length (dl_batches (data_loader self)).
Proof. unfold DataLoaderWithTaskname_iter. by rewrite length_fmap. Qed.

End TaggingFacts.

(** ** The proportional task sampler *)

Section MultitaskFacts.

Context {L B Ex : Type} `{!Loader L B Ex}.

(** C10: the [dataset] attribute of a [MultitaskDataloader] is a list as
    long as the task datasets together, and each of its entries is [None]. *)
Theorem dataset_is_placeholders (dataloader_dict : dict L) :
  List.length (mt_dataset (MultitaskDataloader_init dataloader_dict))
    = sum_list ((λ dl, List.length (loader_dataset dl))
                  <$> Dict.values dataloader_dict)
  ∧ Forall (λ x, x = None)
      (mt_dataset (MultitaskDataloader_init dataloader_dict)).
Proof.
  simpl. split; [apply length_replicate|].
  apply Forall_forall. intros x Hx. by apply elem_of_replicate in Hx as [-> _].
Qed.

Implicit Types (names : list string) (cs : list nat).

Lemma count_of_app i cs1 cs2 :
  count_of i (cs1 ++ cs2) = count_of i cs1 + count_of i cs2.
Proof. unfold count_of. by rewrite filter_app, length_app. Qed.

Lemma count_of_cons i c cs :
  count_of i (c :: cs) = (if decide (c = i) then 1 else 0) + count_of i cs.
Proof. unfold count_of. rewrite filter_cons. by case_decide. Qed.

Lemma count_of_absent i cs : (∀ c, c ∈ cs → c ≠ i) → count_of i cs = 0.
Proof.
  induction cs as [|c cs IH]; intros Hcs; [done|].
  rewrite count_of_cons, decide_False, IH; [done | |].
  - intros c' Hc'. apply Hcs. apply elem_of_cons. by right.
  - apply Hcs. apply elem_of_cons. by left.
Qed.

Lemma count_of_replicate i n c :
  count_of i (replicate n c) = if decide (c = i) then n else 0.
Proof.
  induction n as [|n IH]; simpl; [by case_decide|].
  rewrite count_of_cons, IH. by case_decide.
Qed.

Lemma count_of_Permutation i cs1 cs2 :
  cs1 ≡ₚ cs2 → count_of i cs1 = count_of i cs2.
Proof. unfold count_of. by intros ->. Qed.

(** The choice list holds the index of every task as often as
    [num_batches_dict] says, and nothing else. *)
Lemma build_task_choice_list_spec k names (nb : gmap string nat) :
  (∀ t, t ∈ names → is_Some (nb !! t)) →
  ∃ cs, build_task_choice_list k names nb = Ok cs ∧
    (∀ c, c ∈ cs → k ≤ c < k + List.length names) ∧
    (∀ j t n, names !! j = Some t → nb !! t = Some n →
       count_of (k + j) cs = n) ∧
    List.length cs = sum_list ((λ t, default 0 (nb !! t)) <$> names).
Proof.
  revert k. induction names as [|t0 names IH]; intros k Hnb; simpl.
  - exists []. split; [done|]. split; [|split; [|done]].
    + intros c Hc. by apply elem_of_nil in Hc.
    + intros j t n Hj. done.
  - destruct (Hnb t0) as [n0 Hn0]; [apply elem_of_cons; by left|].
    rewrite Hn0.
    destruct (IH (S k)) as (rest & -> & Hrange & Hcount & Hlen).
    { intros t Ht. apply Hnb. apply elem_of_cons. by right. }
    simpl. eexists. split; [done|]. split; [|split].
    + intros c Hc. apply elem_of_app in Hc as [Hc|Hc].
      * apply elem_of_replicate_inv in Hc. lia.
      * apply Hrange in Hc. lia.
    + intros j t n Hj Hn. rewrite count_of_app, count_of_replicate.
      destruct j as [|j]; simpl in Hj.
      * injection Hj as <-. rewrite Hn0 in Hn. injection Hn as <-.
        rewrite decide_True by lia. rewrite count_of_absent; [lia|].
        intros c Hc. apply Hrange in Hc. lia.
      * rewrite decide_False by lia.
        replace (k + S j) with (S k + j) by lia. by eapply Hcount.
    + by rewrite length_app, length_replicate, Hlen.
Qed.

Lemma supplied_by_cons t t0 (b : B) tr :
  supplied_by t ((t0, b) :: tr) =
    if decide (t0 = t) then (t0, b) :: supplied_by t tr else supplied_by t tr.
Proof. unfold supplied_by. rewrite filter_cons. simpl. by case_decide. Qed.

(** When no iterator is asked for more than it holds, the loop runs to its
    end, and what it took from each iterator is a prefix of it, as long as
    the task's index occurs in the choices. *)
Lemma iter_loop_completes names (its : gmap string (list B)) cs :
  NoDup names →
  (∀ c, c ∈ cs → c < List.length names) →
  (∀ i t, names !! i = Some t →
     ∃ bs, its !! t = Some bs ∧ count_of i cs ≤ List.length bs) →
  ∃ tr, iter_loop names its cs = (tr, Finished) ∧
    List.length tr = List.length cs ∧
    ∀ i t bs, names !! i = Some t → its !! t = Some bs →
      supplied_by t tr = (t,.) <$> take (count_of i cs) bs.
Proof.
  intros Hnd. revert its. induction cs as [|c cs IH]; intros its Hrange Hits.
  - exists []. split; [done|]. split; [done|]. intros i t bs _ _. done.
  - destruct (lookup_lt_is_Some_2 names c) as [t0 Ht0].
    { apply Hrange. apply elem_of_cons. by left. }
    destruct (Hits c t0 Ht0) as (bs0 & Hbs0 & Hcnt0).
    rewrite count_of_cons, decide_True in Hcnt0 by done.
    destruct bs0 as [|b rest]; [simpl in Hcnt0; lia|].
    simpl. rewrite Ht0, Hbs0.
    destruct (IH (<[t0:=rest]> its)) as (tr & -> & Hlen & Htr).
    { intros c' Hc'. apply Hrange. apply elem_of_cons. by right. }
    { intros i t Hi. destruct (decide (t0 = t)) as [<-|Hne].
      - rewrite (NoDup_lookup names i c t0 Hnd Hi Ht0).
        rewrite lookup_insert_eq. eexists. split; [done|].
        simpl in Hcnt0. lia.
      - rewrite lookup_insert_ne by done.
        destruct (Hits i t Hi) as (bs & Hbs & Hcnt). exists bs. split; [done|].
        rewrite count_of_cons in Hcnt. lia. }
    eexists. split; [done|]. split; [simpl; by rewrite Hlen|].
    intros i t bs Hi Hbs. rewrite supplied_by_cons, count_of_cons.
    destruct (decide (t0 = t)) as [<-|Hne].
    + rewrite (NoDup_lookup names i c t0 Hnd Hi Ht0), decide_True by done.
      rewrite Hbs0 in Hbs. injection Hbs as <-. simpl.
      f_equal. apply (Htr c); [done | by rewrite lookup_insert_eq].
    + rewrite decide_False.
      * simpl. apply Htr; [done | by rewrite lookup_insert_ne].
      * intros ->. rewrite Ht0 in Hi. by injection Hi.
Qed.

(** When some iterator holds fewer batches than its index occurs in the
    choices, the loop stops with [StopIteration] at a step that asks an
    iterator for more than it holds, after it took all of that iterator. *)
Lemma iter_loop_exhausts names (its : gmap string (list B)) cs :
  NoDup names →
  (∀ c, c ∈ cs → c < List.length names) →
  (∀ t, t ∈ names → is_Some (its !! t)) →
  (∃ i t bs, names !! i = Some t ∧ its !! t = Some bs ∧
     List.length bs < count_of i cs) →
  ∃ tr c t bs, iter_loop names its cs = (tr, Raised StopIteration) ∧
    cs !! List.length tr = Some c ∧ names !! c = Some t ∧
    its !! t = Some bs ∧ List.length bs < count_of c cs ∧
    supplied_by t tr = (t,.) <$> bs.
Proof.
  intros Hnd. revert its.
  induction cs as [|c cs IH]; intros its Hrange Hits (i & t & bs & Hi & Hbs & Hlt).
  - unfold count_of in Hlt. simpl in Hlt. lia.
  - destruct (lookup_lt_is_Some_2 names c) as [t0 Ht0].
    { apply Hrange. apply elem_of_cons. by left. }
    destruct (Hits t0) as [bs0 Hbs0]; [by eapply list_elem_of_lookup_2|].
    simpl. rewrite Ht0, Hbs0. destruct bs0 as [|b rest].
    + exists [], c, t0, []. split; [done|]. split; [done|]. split; [done|].
      split; [done|]. split; [|done].
      rewrite count_of_cons, decide_True by done. simpl. lia.
    + destruct (IH (<[t0:=rest]> its)) as (tr & c' & t' & bs' & -> & Hstep & Hc' & Hbs' & Hlt' & Htr).
      { intros c1 Hc1. apply Hrange. apply elem_of_cons. by right. }
      { intros t1 Ht1. destruct (decide (t0 = t1)) as [<-|Hne].
        - rewrite lookup_insert_eq. eauto.
        - rewrite lookup_insert_ne by done. by apply Hits. }
      { destruct (decide (t0 = t)) as [<-|Hne].
        - exists c, t0, rest. split; [done|]. split; [by rewrite lookup_insert_eq|].
          rewrite (NoDup_lookup names i c t0 Hnd Hi Ht0) in Hlt.
          rewrite count_of_cons, decide_True in Hlt by done.
          rewrite Hbs0 in Hbs. injection Hbs as <-. simpl in Hlt. lia.
        - exists i, t, bs. split; [done|].
          split; [by rewrite lookup_insert_ne|].
          rewrite count_of_cons, decide_False in Hlt; [simpl in Hlt; lia|].
          intros ->. rewrite Ht0 in Hi. by injection Hi. }
      destruct (decide (t0 = t')) as [<-|Hne].
      * rewrite lookup_insert_eq in Hbs'. injection Hbs' as <-.
        assert (c' = c) as -> by by eapply NoDup_lookup.
        exists ((t0, b) :: tr), c, t0, (b :: rest).
        split; [done|]. split; [done|]. split; [done|]. split; [done|].
        split.
        -- rewrite count_of_cons, decide_True by done. simpl. lia.
        -- rewrite supplied_by_cons, decide_True by done. simpl. by rewrite Htr.
      * rewrite lookup_insert_ne in Hbs' by done.
        exists ((t0, b) :: tr), c', t', bs'.
        split; [done|]. split; [done|]. split; [done|]. split; [done|].
        split.
        -- rewrite count_of_cons, decide_False; [simpl; lia|].
           intros ->. rewrite Ht0 in Hc'. by injection Hc'.
        -- by rewrite supplied_by_cons, decide_False.
Qed.

(** The dictionary comprehensions of [__init__] and [__iter__]. *)
Lemma lookup_comprehension {W : Type} (f : L → W) (d : dict L) t l :
  Dict.wf d → (t, l) ∈ d →
  (list_to_map ((λ '(t, l), (t, f l)) <$> Dict.items d) : gmap string W) !! t
    = Some (f l).
Proof.
  intros Hwf Hin. apply elem_of_list_to_map_1.
  - rewrite <- list_fmap_compose.
    erewrite list_fmap_ext; [exact Hwf|]. by intros i [t' l'] _.
  - by apply (list_elem_of_fmap_2' _ _ (t, l)).
Qed.

Lemma keys_lookup (d : dict L) j t :
  Dict.keys d !! j = Some t → ∃ l, d !! j = Some (t, l) ∧ (t, l) ∈ d.
Proof.
  unfold Dict.keys. intros ([t' l] & -> & Hj)%list_lookup_fmap_Some_1.
  exists l. split; [done|]. by eapply list_elem_of_lookup_2.
Qed.

Lemma elem_of_keys_lookup (d : dict L) t l :
  (t, l) ∈ d → ∃ j, Dict.keys d !! j = Some t ∧ d !! j = Some (t, l).
Proof.
  intros Hin. apply list_elem_of_lookup_1 in Hin as [j Hj]. exists j.
  split; [|done]. unfold Dict.keys.
  by apply (list_lookup_fmap_Some_2 fst _ _ (t, l)).
Qed.

Lemma declared_counts (d : dict L) :
  Dict.wf d →
  (λ t, default 0 (num_batches_dict (MultitaskDataloader_init d) !! t))
    <$> Dict.keys d
  = loader_len <$> Dict.values d.
Proof.
  intros Hwf. unfold Dict.keys, Dict.values.
  rewrite <- !list_fmap_compose. apply list_fmap_ext.
  intros j [t l] Hj. simpl.
  rewrite (lookup_comprehension loader_len d t l); [done | done |].
  by eapply list_elem_of_lookup_2.
Qed.

Lemma map_fold_sum (kvs : list (string * nat)) :
  NoDup kvs.*1 →
  map_fold (λ _ n acc, n + acc) 0 (list_to_map kvs : gmap string nat)
    = sum_list kvs.*2.
Proof.
  induction kvs as [|[t n] kvs IH]; simpl.
  - intros _. apply map_fold_empty.
  - intros [Hnin Hnd]%NoDup_cons. rewrite map_fold_insert_L.
    + by rewrite IH.
    + intros. lia.
    + by apply not_elem_of_list_to_map_1.
Qed.

(** [__len__] adds up the declared batch counts. *)
Lemma MultitaskDataloader_len_sum (d : dict L) :
  Dict.wf d →
  MultitaskDataloader_len (MultitaskDataloader_init d)
    = sum_list (loader_len <$> Dict.values d).
Proof.
  intros Hwf. unfold MultitaskDataloader_len. simpl. rewrite map_fold_sum.
  - f_equal. unfold Dict.values, Dict.items.
    rewrite <- !list_fmap_compose. apply list_fmap_ext. by intros i [t l] _.
  - unfold Dict.items. rewrite <- list_fmap_compose.
    erewrite list_fmap_ext; [exact Hwf|]. by intros i [t l] _.
Qed.

(** What a pass starts from: the choice list and the fresh iterators. *)
Lemma iter_trace_start (shuffle : list nat → list nat) (d : dict L) :
  (∀ cs, shuffle cs ≡ₚ cs) →
  Dict.wf d →
  ∃ cs0,
    build_task_choice_list 0 (Dict.keys d)
      (num_batches_dict (MultitaskDataloader_init d)) = Ok cs0 ∧
    iter_trace shuffle (MultitaskDataloader_init d)
      = iter_loop (Dict.keys d)
          (list_to_map ((λ '(t, l), (t, loader_batches l)) <$> Dict.items d))
          (shuffle cs0) ∧
    (∀ c, c ∈ shuffle cs0 → c < List.length (Dict.keys d)) ∧
    (∀ j t l, Dict.keys d !! j = Some t → (t, l) ∈ d →
       count_of j (shuffle cs0) = loader_len l) ∧
    List.length (shuffle cs0) = sum_list (loader_len <$> Dict.values d).
Proof.
  intros Hperm Hwf.
  destruct (build_task_choice_list_spec 0 (Dict.keys d)
              (num_batches_dict (MultitaskDataloader_init d)))
    as (cs0 & Hbuild & Hrange & Hcount & Hlen).
  { intros t Ht. apply list_elem_of_lookup_1 in Ht as [j Hj].
    apply keys_lookup in Hj as (l & _ & Hin). simpl.
    rewrite (lookup_comprehension loader_len d t l); eauto. }
  exists cs0. split; [done|]. split; [|split; [|split]].
  - unfold iter_trace. simpl in *. by rewrite Hbuild.
  - intros c Hc. rewrite Hperm in Hc. apply Hrange in Hc. lia.
  - intros j t l Hj Hin. rewrite (count_of_Permutation _ _ _ (Hperm cs0)).
    apply (Hcount j t); [done|]. simpl.
    by apply (lookup_comprehension loader_len).
  - rewrite Hperm, Hlen. f_equal. by apply declared_counts.
Qed.

(** C1: over task sources whose iterators supply as many batches as they
    declare, one pass of [__iter__] runs to its end; what it yields from each
    task is that task's batches, so as many as the task declares; the number
    of batches yielded is the sum of the declared counts; and [__len__] is
    that sum. *)
Theorem iter_yields_declared_counts (shuffle : list nat → list nat)
    (d : dict L) :
  (∀ cs, shuffle cs ≡ₚ cs) →
  Dict.wf d →
  (∀ t l, (t, l) ∈ d → loader_len l = List.length (loader_batches l)) →
  ∃ tr,
    iter_trace shuffle (MultitaskDataloader_init d) = (tr, Finished) ∧
    MultitaskDataloader_iter shuffle (MultitaskDataloader_init d)
      = (tr.*2, Finished) ∧
    (∀ t l, (t, l) ∈ d →
       supplied_by t tr = (t,.) <$> loader_batches l ∧
       List.length (supplied_by t tr) = loader_len l) ∧
    List.length tr.*2 = sum_list (loader_len <$> Dict.values d) ∧
    MultitaskDataloader_len (MultitaskDataloader_init d)
      = sum_list (loader_len <$> Dict.values d).
Proof.
  intros Hperm Hwf Hdecl.
  destruct (iter_trace_start shuffle d Hperm Hwf)
    as (cs0 & _ & Hstart & Hrange & Hcount & Hlen).
  destruct (iter_loop_completes (Dict.keys d)
              (list_to_map
                 ((λ '(t, l), (t, loader_batches l)) <$> Dict.items d))
              (shuffle cs0)) as (tr & Hrun & Htr_len & Htr); [done | done | |].
  { intros j t Hj. destruct (keys_lookup d j t Hj) as (l & _ & Hin).
    exists (loader_batches l).
    split; [by apply (lookup_comprehension loader_batches)|].
    rewrite (Hcount j t l Hj Hin), (Hdecl t l Hin). done. }
  assert (Htrace : iter_trace shuffle (MultitaskDataloader_init d)
                   = (tr, Finished)) by by rewrite Hstart.
  exists tr. split; [done|]. split; [|split; [|split]].
  - unfold MultitaskDataloader_iter. by rewrite Htrace.
  - intros t l Hin. destruct (elem_of_keys_lookup d t l Hin) as (j & Hj & _).
    assert (Hsup : supplied_by t tr = (t,.) <$> loader_batches l).
    { rewrite (Htr j t (loader_batches l) Hj);
        [|by apply (lookup_comprehension loader_batches)].
      rewrite (Hcount j t l Hj Hin), (Hdecl t l Hin). by rewrite firstn_all. }
    split; [done|]. by rewrite Hsup, length_fmap, (Hdecl t l Hin).
  - by rewrite length_fmap, Htr_len.
  - by apply MultitaskDataloader_len_sum.
Qed.

(** C7: when some task declares more batches than its iterator supplies, a
    pass of [__iter__] ends in an exception: the [StopIteration] of [next]
    leaves the generator as a [RuntimeError]. It is raised at the step whose
    choice is a task that declares more than it supplies and whose batches
    have all been yielded, and before the declared number of batches has
    been yielded. *)
Theorem iter_exhaustion_is_raised (shuffle : list nat → list nat)
    (d : dict L) :
  (∀ cs, shuffle cs ≡ₚ cs) →
  Dict.wf d →
  (∃ t l, (t, l) ∈ d ∧ List.length (loader_batches l) < loader_len l) →
  ∃ tr cs0 c t l,
    iter_trace shuffle (MultitaskDataloader_init d)
      = (tr, Raised StopIteration) ∧
    MultitaskDataloader_iter shuffle (MultitaskDataloader_init d)
      = (tr.*2, Raised (RuntimeError "generator raised StopIteration")) ∧
    build_task_choice_list 0 (Dict.keys d)
      (num_batches_dict (MultitaskDataloader_init d)) = Ok cs0 ∧
    shuffle cs0 !! List.length tr = Some c ∧
    Dict.keys d !! c = Some t ∧
    (t, l) ∈ d ∧
    List.length (loader_batches l) < loader_len l ∧
    supplied_by t tr = (t,.) <$> loader_batches l ∧
    List.length tr.*2 < sum_list (loader_len <$> Dict.values d).
Proof.
  intros Hperm Hwf (t1 & l1 & Hin1 & Hlt1).
  destruct (iter_trace_start shuffle d Hperm Hwf)
    as (cs0 & Hbuild & Hstart & Hrange & Hcount & Hlen).
  destruct (iter_loop_exhausts (Dict.keys d)
              (list_to_map
                 ((λ '(t, l), (t, loader_batches l)) <$> Dict.items d))
              (shuffle cs0))
    as (tr & c & t & bs & Hrun & Hstep & Hc & Hbs & Hlt & Htr);
    [done | done | | |].
  { intros t Ht. apply list_elem_of_lookup_1 in Ht as [j Hj].
    apply keys_lookup in Hj as (l & _ & Hin).
    rewrite (lookup_comprehension loader_batches d t l); eauto. }
  { destruct (elem_of_keys_lookup d t1 l1 Hin1) as (j & Hj & _).
    exists j, t1, (loader_batches l1). split; [done|].
    split; [by apply (lookup_comprehension loader_batches)|].
    by rewrite (Hcount j t1 l1 Hj Hin1). }
  destruct (keys_lookup d c t Hc) as (l & _ & Hin).
  rewrite (lookup_comprehension loader_batches d t l) in Hbs by done.
  injection Hbs as <-.
  assert (Htrace : iter_trace shuffle (MultitaskDataloader_init d)
                   = (tr, Raised StopIteration)) by by rewrite Hstart.
  exists tr, cs0, c, t, l. split; [done|]. split.
  { unfold MultitaskDataloader_iter. by rewrite Htrace. }
  split; [done|]. split; [done|]. split; [done|]. split; [done|].
  split; [by rewrite <- (Hcount c t l Hc Hin)|]. split; [done|].
  rewrite length_fmap, <- Hlen. by eapply lookup_lt_Some.
Qed.

End MultitaskFacts.

(** ** The collator *)

Section CollatorFacts.

Context {scalar Obj : Type}.
Variable cast : dtype → scalar → scalar.
Variable default_collate_batch :
  list (@example scalar Obj) → result (option (dict (@tensor scalar))).

Implicit Types (features : list (@example scalar Obj)).
Implicit Types (first : dict (@value scalar)).

Lemma collate_fields_step features k v items batch :
  collate_fields features ((k, v) :: items) batch =
    if is_stacked_field k v then
      stacked ← stack_column features k;
      batch' ← batch_setitem batch k stacked;
      collate_fields features items batch'
    else collate_fields features items batch.
Proof.
  unfold is_stacked_field, stack_column. simpl.
  destruct (_ && _); [|done].
  destruct (column features k); done.
Qed.

(** While [batch] is [None] the loop cannot produce a mapping: it leaves
    [None] in place until the first assignment, which raises. *)
Lemma collate_fields_None features items :
  collate_fields features items None = Ok None
  ∨ ∃ e, collate_fields features items None = Err e.
Proof.
  induction items as [|[k v] items IH]; [by left|].
  rewrite collate_fields_step. destruct (is_stacked_field k v); [|done].
  right. destruct (stack_column features k) as [t|e]; simpl; eauto.
Qed.

(** Started on a mapping, the loop adds the stack of every column it
    selects and leaves the other keys as they are. *)
Lemma collate_fields_Some features items (b0 : dict tensor) :
  NoDup items.*1 →
  (∀ k v, (k, v) ∈ items → is_stacked_field k v = true →
     ∃ t, stack_column features k = Ok t) →
  ∃ b, collate_fields features items (Some b0) = Ok (Some b) ∧
    ∀ k, Dict.get b k =
      match Dict.get items k with
      | Some v =>
          if is_stacked_field k v then
            match stack_column features k with
            | Ok t => Some t
            | Err _ => None
            end
          else Dict.get b0 k
      | None => Dict.get b0 k
      end.
Proof.
  revert b0. induction items as [|[k1 v1] items IH]; intros b0 Hnd Hst.
  - exists b0. done.
  - simpl in Hnd. apply NoDup_cons in Hnd as [Hk1 Hnd].
    assert (Hget1 : Dict.get items k1 = None) by by apply DictFacts.get_None.
    rewrite collate_fields_step.
    destruct (is_stacked_field k1 v1) eqn:Hsel.
    + destruct (Hst k1 v1) as [t Ht]; [apply elem_of_cons; by left | done |].
      rewrite Ht. simpl.
      destruct (IH (Dict.set b0 k1 t)) as (b & Hrun & Hb); [done | |].
      { intros k v Hin. apply Hst. apply elem_of_cons. by right. }
      exists b. split; [done|]. intros k. rewrite Hb. simpl.
      destruct (decide (k1 = k)) as [<-|Hne].
      * by rewrite Hget1, DictFacts.get_set_eq, Hsel, Ht.
      * by rewrite DictFacts.get_set_ne.
    + destruct (IH b0) as (b & Hrun & Hb); [done | |].
      { intros k v Hin. apply Hst. apply elem_of_cons. by right. }
      exists b. split; [done|]. intros k. rewrite Hb. simpl.
      destruct (decide (k1 = k)) as [<-|Hne]; [|done].
      by rewrite Hget1, Hsel.
Qed.

Lemma torch_tensor_dtype (vs : list (@value scalar)) d t :
  torch_tensor cast vs d = Ok t →
  t_dtype t = d ∧ t_shape t = [List.length vs] ∧
  ∃ xs, list_comp tensor_item vs = Ok xs ∧ t_data t = cast d <$> xs.
Proof.
  unfold torch_tensor. intros H. apply bind_Ok in H as (xs & Hxs & [= <-]).
  simpl. eauto.
Qed.

(** Without a label in the first example no mapping comes out: the result is
    [None] when no field is selected for stacking, and an exception
    otherwise. *)
Lemma collate_batch_unlabelled first rest :
  Dict.get first "labels" = None ∨ Dict.get first "labels" = Some VNone →
  collate_batch cast default_collate_batch (EDict first :: rest) = Ok None
  ∨ ∃ e, collate_batch cast default_collate_batch (EDict first :: rest)
           = Err e.
Proof.
  intros Hlab. unfold collate_batch.
  destruct Hlab as [-> | ->]; simpl; apply collate_fields_None.
Qed.

(** C4, as amended: when the first example is a mapping with a tensor under
    "labels", the labels of all examples convert, and every column selected
    for stacking stacks, [collate_batch] returns a mapping that holds under
    "labels" the labels of all examples as one tensor, of dtype int64 if the
    first label has dtype int64 and float32 otherwise; that holds, for every
    other field whose value in the first example is neither [None] nor a
    string, the stack of that field over all examples; and that has no entry
    for a field whose value in the first example is [None] or a string. *)
Theorem collate_batch_labelled first rest (lab : tensor)
    (lvs : list value) (labels : tensor) :
  let features := EDict first :: rest in
  Dict.wf first →
  Dict.get first "labels" = Some (VTensor lab) →
  column features "labels" = Ok lvs →
  torch_tensor cast lvs (labels_dtype lab) = Ok labels →
  (∀ k v, (k, v) ∈ first → is_stacked_field k v = true →
     ∃ t, stack_column features k = Ok t) →
  ∃ batch,
    collate_batch cast default_collate_batch features = Ok (Some batch) ∧
    Dict.get batch "labels" = Some labels ∧
    t_dtype labels = (if bool_decide (t_dtype lab = int64) then int64
                      else float32) ∧
    is_integer_dtype (t_dtype labels) = bool_decide (t_dtype lab = int64) ∧
    (∀ k v, Dict.get first k = Some v → is_stacked_field k v = true →
       ∃ t, stack_column features k = Ok t ∧ Dict.get batch k = Some t) ∧
    (∀ k v, Dict.get first k = Some v → v = VNone ∨ is_str v = true →
       Dict.get batch k = None).
Proof.
  intros features Hwf Hlab Hcol Htt Hst.
  destruct (collate_fields_Some features first [("labels", labels)])
    as (batch & Hrun & Hbatch); [done | done |].
  exists batch. split; [|split; [|split; [|split; [|split]]]].
  - unfold collate_batch, features. rewrite Hlab. simpl.
    fold features. unfold labels_dtype in Htt.
    destruct (bool_decide (t_dtype lab = int64));
      rewrite Hcol; simpl; rewrite Htt; done.
  - rewrite Hbatch, Hlab. done.
  - apply torch_tensor_dtype in Htt as [-> _]. done.
  - apply torch_tensor_dtype in Htt as [-> _]. unfold labels_dtype.
    by destruct (bool_decide (t_dtype lab = int64)).
  - intros k v Hk Hsel. destruct (Hst k v) as [t Ht];
      [by apply DictFacts.get_Some_elem_of | done |].
    exists t. split; [done|]. by rewrite Hbatch, Hk, Hsel, Ht.
  - intros k v Hk Hv. rewrite Hbatch, Hk.
    assert (Hne : k ≠ "labels").
    { intros ->. rewrite Hlab in Hk. destruct Hv as [->| Hv]; [done|].
      injection Hk as <-. done. }
    assert (Hsel : is_stacked_field k v = false).
    { unfold is_stacked_field. destruct Hv as [->|Hv]; simpl.
      - by rewrite andb_false_r.
      - rewrite Hv. simpl. by rewrite andb_false_r. }
    rewrite Hsel. simpl. by rewrite decide_False.
Qed.

End CollatorFacts.

Lemma collate_batch_labelled_witness :
  ∃ batch,
    collate_batch (λ _ x, x) (λ _, Ok None)
      [labelled_example 1 10 "a"; labelled_example 2 20 "b";
       labelled_example 3 30 "c"] = Ok (Some batch)
    ∧ Dict.get batch "labels"
        = Some {| t_dtype := int64; t_shape := [3]; t_data := [1; 2; 3] |}
    ∧ Dict.get batch "x"
        = Some {| t_dtype := float32; t_shape := [3]; t_data := [10; 20; 30] |}
    ∧ Dict.get batch "text" = None.
Proof.
  destruct (collate_batch_labelled (λ _ x, x) (λ _, Ok None)
              [("labels", VTensor (scalar_tensor int64 1));
               ("x", VTensor (scalar_tensor float32 10));
               ("text", VStr "a"); ("idx", VNone)]
              [labelled_example 2 20 "b"; labelled_example 3 30 "c"]
              (scalar_tensor int64 1)
              [VTensor (scalar_tensor int64 1);
               VTensor (scalar_tensor int64 2);
               VTensor (scalar_tensor int64 3)]
              {| t_dtype := int64; t_shape := [3]; t_data := [1; 2; 3] |})
    as (batch & Hrun & Hlabels & _ & _ & Hstack & Hdrop).
  - solve_wf.
  - reflexivity.
  - reflexivity.
  - reflexivity.
  - intros k v Hin Hsel.
    repeat (apply elem_of_cons in Hin as [[= -> ->]|Hin]);
      try discriminate Hsel; [eexists; reflexivity|].
    by apply elem_of_nil in Hin.
  - exists batch. split; [exact Hrun|]. split; [exact Hlabels|]. split.
    + destruct (Hstack "x" (VTensor (scalar_tensor float32 10)))
        as (t & Ht & Hget); [reflexivity | reflexivity |].
      rewrite Hget. f_equal. vm_compute in Ht. congruence.
    + apply (Hdrop "text" (VStr "a")); [reflexivity | by right].
Defined.

(** C4 as the spec words it fails: two lists of mappings that share their
    field set on which [collate_batch] raises and returns no mapping. In the
    first the second example holds a string where the first holds a tensor;
    in the second the examples have no label. *)
Lemma collate_batch_raises :
  collate_batch (λ _ x, x) (λ _, Ok None)
    [EDict [("labels", VTensor (scalar_tensor int64 1));
            ("x", VTensor (scalar_tensor float32 10))];
     (EDict [("labels", VTensor (scalar_tensor int64 2));
             ("x", VStr "ten")] : @example nat unit)]
    = Err (TypeError "expected Tensor as element of the sequence")
  ∧ collate_batch (λ _ x, x) (λ _, Ok None)
      [EDict [("x", VTensor (scalar_tensor float32 10))];
       (EDict [("x", VTensor (scalar_tensor float32 20))]
          : @example nat unit)]
    = Err (TypeError "'NoneType' object does not support item assignment").
Proof. split; reflexivity. Qed.

(** C5: on examples that have a tensor field and no "labels" field, the
    assignment to the batch that was never created raises [TypeError]; no
    mapping with the stacked field is produced. *)
Theorem collate_batch_unlabelled_raises :
  collate_batch (λ _ x, x) (λ _, Ok None)
    [EDict [("input_ids", VTensor (scalar_tensor int64 101))];
     (EDict [("input_ids", VTensor (scalar_tensor int64 102))]
        : @example nat unit)]
    = Err (TypeError "'NoneType' object does not support item assignment").
Proof. reflexivity. Qed.

(** ** The theorems at the sample inputs *)

Lemma get_encoder_attr_name_by_prefix_witness :
  get_encoder_attr_name
    {| class_name := "RobertaForTokenClassification"; attrs := [] |}
  = Ok "roberta".
Proof.
  apply (proj1 (proj2 (get_encoder_attr_name_by_prefix _))). reflexivity.
Defined.

Lemma forward_routes_witness :
  forward (Params := unit) (λ _ _ (_ : unit), tt)
    {| encoder := None; taskmodels_dict := [] |} [] "sentiment" tt
  = Err (KeyError "sentiment").
Proof.
  apply (proj1 (proj2 (forward_routes _ _ _ _ _))). reflexivity.
Defined.

Lemma create_shares_first_encoder_witness :
  ∃ mm h',
    create sample_pretrained "bert-base-cased" sample_model_types
      [("sentiment", 2); ("ner", 9)] [] = Ok (mm, h')
    ∧ ∃ shared : loc,
        encoder mm = Some shared ∧
        first_model_encoder sample_pretrained "bert-base-cased"
          sample_model_types [("sentiment", 2); ("ner", 9)] [] = Ok shared ∧
        (∀ t, t ∈ Dict.keys sample_model_types →
           is_Some (Dict.get (taskmodels_dict mm) t)) ∧
        (∀ t m, Dict.get (taskmodels_dict mm) t = Some m →
           encoder_is shared m) ∧
        (∀ p t m, Dict.get (taskmodels_dict mm) t = Some m →
           encoder_params (update_params h' shared p) m = Ok p).
Proof.
  eexists _, _. split; [reflexivity|].
  apply (create_shares_first_encoder sample_pretrained "bert-base-cased"
           sample_model_types [("sentiment", 2); ("ner", 9)] []).
  - discriminate.
  - reflexivity.
Defined.

Lemma sample_sources_declared (t : string) l :
  (t, l) ∈ sample_sources → loader_len l = List.length (loader_batches l).
Proof.
  intros Hin. repeat (apply elem_of_cons in Hin as [[= -> ->]|Hin]);
    [reflexivity | reflexivity | by apply elem_of_nil in Hin].
Defined.

Lemma iter_yields_declared_counts_witness :
  ∃ tr,
    iter_trace reverse (MultitaskDataloader_init sample_sources)
      = (tr, Finished) ∧
    MultitaskDataloader_iter reverse (MultitaskDataloader_init sample_sources)
      = (tr.*2, Finished) ∧
    (∀ t l, (t, l) ∈ sample_sources →
       supplied_by t tr = (t,.) <$> loader_batches l ∧
       List.length (supplied_by t tr) = loader_len l) ∧
    List.length tr.*2 = sum_list (loader_len <$> Dict.values sample_sources) ∧
    MultitaskDataloader_len (MultitaskDataloader_init sample_sources)
      = sum_list (loader_len <$> Dict.values sample_sources).
Proof.
  apply (iter_yields_declared_counts reverse sample_sources).
  - apply reverse_Permutation.
  - solve_wf.
  - apply sample_sources_declared.
Defined.

Lemma iter_exhaustion_is_raised_witness :
  ∃ tr cs0 c t l,
    iter_trace reverse (MultitaskDataloader_init short_sources)
      = (tr, Raised StopIteration) ∧
    MultitaskDataloader_iter reverse (MultitaskDataloader_init short_sources)
      = (tr.*2, Raised (RuntimeError "generator raised StopIteration")) ∧
    build_task_choice_list 0 (Dict.keys short_sources)
      (num_batches_dict (MultitaskDataloader_init short_sources)) = Ok cs0 ∧
    reverse cs0 !! List.length tr = Some c ∧
    Dict.keys short_sources !! c = Some t ∧
    (t, l) ∈ short_sources ∧
    List.length (loader_batches l) < loader_len l ∧
    supplied_by t tr = (t,.) <$> loader_batches l ∧
    List.length tr.*2 < sum_list (loader_len <$> Dict.values short_sources).
Proof.
  apply (iter_exhaustion_is_raised reverse short_sources).
  - apply reverse_Permutation.
  - solve_wf.
  - eexists "A", _. split; [apply elem_of_cons; left; reflexivity|].
    vm_compute. lia.
Defined.

(** ** More on the sampler: what a pass takes from its sources *)

Section SamplerFacts.

Context {L B Ex : Type} `{!Loader L B Ex}.

Implicit Types (names : list string) (cs : list nat).
Implicit Types (its : gmap string (list B)) (tr : list (string * B)).

(** However the loop ends, what it took from an iterator is a prefix of that
    iterator, and nothing is attributed to a task without an iterator. *)
Lemma iter_loop_prefix names its cs tr o :
  iter_loop names its cs = (tr, o) →
  (∀ t bs, its !! t = Some bs →
     ∃ k, k ≤ List.length bs ∧ supplied_by t tr = (t,.) <$> take k bs) ∧
  (∀ t, its !! t = None → supplied_by t tr = []).
Proof.
  revert its tr o. induction cs as [|c cs IH]; intros its tr o; simpl.
  - intros [= <- <-]. split; [|done].
    intros t bs _. exists 0. split; [lia | done].
  - destruct (names !! c) as [t0|]; [|intros [= <- <-]].
    2:{ split; [|done]. intros t bs _. exists 0. split; [lia | done]. }
    destruct (its !! t0) as [[|b rest]|] eqn:Hbs0; [intros [= <- <-]| |intros [= <- <-]].
    1,3: (split; [|done]; intros t bs _; exists 0; split; [lia | done]).
    destruct (iter_loop names (<[t0:=rest]> its) cs) as [tr' o'] eqn:Hrun.
    intros [= <- <-]. apply IH in Hrun as [Hsome Hnone]. split.
    + intros t bs Hbs. rewrite supplied_by_cons.
      destruct (decide (t0 = t)) as [<-|Hne].
      * rewrite Hbs0 in Hbs. injection Hbs as <-.
        destruct (Hsome t0 rest) as (k & Hk & ->); [by rewrite lookup_insert_eq|].
        exists (S k). split; [simpl; lia | done].
      * apply Hsome. by rewrite lookup_insert_ne.
    + intros t Ht. rewrite supplied_by_cons.
      destruct (decide (t0 = t)) as [<-|Hne]; [congruence|].
      apply Hnone. by rewrite lookup_insert_ne.
Qed.

(** The tasks of the yielded batches are, in order, the tasks the choices
    name, up to the step at which the loop ends. *)
Lemma iter_loop_task_order names its cs tr o :
  iter_loop names its cs = (tr, o) →
  List.length tr ≤ List.length cs ∧
  Some <$> tr.*1 = (λ c, names !! c) <$> take (List.length tr) cs.
Proof.
  revert its tr o. induction cs as [|c cs IH]; intros its tr o; simpl.
  - intros [= <- <-]. done.
  - destruct (names !! c) as [t0|] eqn:Hc; [|intros [= <- <-]; simpl; split; [lia | done]].
    destruct (its !! t0) as [[|b rest]|];
      [intros [= <- <-]; simpl; split; [lia | done]|
      |intros [= <- <-]; simpl; split; [lia | done]].
    destruct (iter_loop names (<[t0:=rest]> its) cs) as [tr' o'] eqn:Hrun.
    intros [= <- <-]. apply IH in Hrun as [Hle Heq]. csimpl.
    split; [lia|]. rewrite Hc. f_equal. exact Heq.
Qed.

(** A trace whose tasks are among [names] is, up to the order of its
    entries, the parts that the tasks supplied put one after the other. *)
Lemma trace_Permutation_by_task names tr :
  NoDup names →
  (∀ e, e ∈ tr → e.1 ∈ names) →
  tr ≡ₚ concat ((λ t, supplied_by t tr) <$> names).
Proof.
  intros Hnd. revert tr. induction Hnd as [|t0 names Hnin Hnd IH]; intros tr Htr.
  - destruct tr as [|e tr]; [done|].
    exfalso. eapply not_elem_of_nil, (Htr e). apply elem_of_cons. by left.
  - csimpl.
    rewrite <- (filter_app_complement (λ e : string * B, e.1 = t0) tr) at 1.
    apply Permutation_app; [done|].
    assert (Heq : (λ t, supplied_by t (filter (λ e : string * B, ¬ e.1 = t0) tr))
                    <$> names
                  = (λ t, supplied_by t tr) <$> names).
    { apply list_fmap_ext. intros i t Ht. unfold supplied_by.
      apply list_filter_filter_l. intros e -> ->.
      apply Hnin. by eapply list_elem_of_lookup_2. }
    rewrite <- Heq. apply IH.
    intros e [Hne He]%list_elem_of_filter.
    apply Htr in He. apply elem_of_cons in He as [?|?]; done.
Qed.

(** A pass over a dictionary of sources, however it ends: each task's
    batches come out in the order of its source, none twice, and only the
    configured tasks appear. *)
Lemma iter_trace_sources (shuffle : list nat → list nat) (d : dict L) tr o :
  Dict.wf d →
  iter_trace shuffle (MultitaskDataloader_init d) = (tr, o) →
  (∀ t l, (t, l) ∈ d →
     ∃ k, k ≤ List.length (loader_batches l) ∧
          supplied_by t tr = (t,.) <$> take k (loader_batches l)) ∧
  (∀ e, e ∈ tr → e.1 ∈ Dict.keys d).
Proof.
  intros Hwf. unfold iter_trace.
  destruct (build_task_choice_list _ _ _) as [cs0|e0]; simpl.
  2:{ intros [= <- <-]. split.
      - intros t l _. exists 0. split; [lia | done].
      - intros e He. by apply elem_of_nil in He. }
  intros [Hsome Hnone]%iter_loop_prefix. split.
  - intros t l Hin. apply Hsome.
    by apply (lookup_comprehension loader_batches).
  - intros [t b] He. simpl.
    destruct (decide (t ∈ Dict.keys d)) as [|Hnin]; [done|]. exfalso.
    assert (Hempty : supplied_by t tr = []).
    { apply Hnone. apply not_elem_of_list_to_map_1.
      unfold Dict.items. rewrite <- list_fmap_compose.
      erewrite list_fmap_ext; [exact Hnin|]. by intros i [t' l'] _. }
    assert (Hin : (t, b) ∈ supplied_by t tr).
    { apply list_elem_of_filter. done. }
    rewrite Hempty in Hin. by apply elem_of_nil in Hin.
Qed.

(** When no task declares more than it supplies, the pass runs to its end
    and takes from each task as many batches as the task declares. *)
Lemma iter_trace_finishes (shuffle : list nat → list nat) (d : dict L) :
  (∀ cs, shuffle cs ≡ₚ cs) →
  Dict.wf d →
  (∀ t l, (t, l) ∈ d → loader_len l ≤ List.length (loader_batches l)) →
  ∃ tr,
    iter_trace shuffle (MultitaskDataloader_init d) = (tr, Finished) ∧
    List.length tr = sum_list (loader_len <$> Dict.values d) ∧
    (∀ t l, (t, l) ∈ d →
       supplied_by t tr = (t,.) <$> take (loader_len l) (loader_batches l)).
Proof.
  intros Hperm Hwf Hdecl.
  destruct (iter_trace_start shuffle d Hperm Hwf)
    as (cs0 & _ & Hstart & Hrange & Hcount & Hlen).
  destruct (iter_loop_completes (Dict.keys d)
              (list_to_map
                 ((λ '(t, l), (t, loader_batches l)) <$> Dict.items d))
              (shuffle cs0)) as (tr & Hrun & Htr_len & Htr); [done | done | |].
  { intros j t Hj. destruct (keys_lookup d j t Hj) as (l & _ & Hin).
    exists (loader_batches l).
    split; [by apply (lookup_comprehension loader_batches)|].
    rewrite (Hcount j t l Hj Hin). by apply (Hdecl t). }
  exists tr. split; [by rewrite Hstart|]. split; [by rewrite Htr_len|].
  intros t l Hin. destruct (elem_of_keys_lookup d t l Hin) as (j & Hj & _).
  rewrite (Htr j t (loader_batches l) Hj);
    [|by apply (lookup_comprehension loader_batches)].
  by rewrite (Hcount j t l Hj Hin).
Qed.


Lemma tagged_batches_snd (d : dict L) :
  (concat ((λ '(t, l), (t,.) <$> loader_batches l) <$> d)).*2
  = concat (loader_batches <$> Dict.values d).
Proof.
  unfold Dict.values. induction d as [|[t l] d IH]; csimpl; [done|].
  rewrite fmap_app, IH. f_equal.
  rewrite <- list_fmap_compose. apply list_fmap_id.
Qed.


(** X2: when every task's iterator supplies at least as many batches as the
    task declares, the pass finishes after the declared number of batches,
    and from each task exactly its first [len] batches are yielded: what a
    source supplies beyond its declared count is never yielded. *)
Theorem iter_surplus_never_yielded (shuffle : list nat → list nat)
    (d : dict L) :
  (∀ cs, shuffle cs ≡ₚ cs) →
  Dict.wf d →
  (∀ t l, (t, l) ∈ d → loader_len l ≤ List.length (loader_batches l)) →
  ∃ tr,
    iter_trace shuffle (MultitaskDataloader_init d) = (tr, Finished) ∧
    MultitaskDataloader_iter shuffle (MultitaskDataloader_init d)
      = (tr.*2, Finished) ∧
    List.length tr.*2 = sum_list (loader_len <$> Dict.values d) ∧
    (∀ t l, (t, l) ∈ d →
       (supplied_by t tr).*2 = take (loader_len l) (loader_batches l)).
Proof.
  intros Hperm Hwf Hdecl.
  destruct (iter_trace_finishes shuffle d Hperm Hwf Hdecl)
    as (tr & Htrace & Hlen & Htr).
  exists tr. split; [done|]. split; [|split].
  - unfold MultitaskDataloader_iter. by rewrite Htrace.
  - by rewrite length_fmap.
  - intros t l Hin. rewrite (Htr t l Hin), <- list_fmap_compose.
    apply list_fmap_id.
Qed.

(** X3: the tasks of the yielded batches follow the shuffled choice list:
    the k-th batch of a pass comes from the task whose index is the k-th
    entry of the shuffled list, for as long as the pass runs. *)
Theorem iter_task_order_follows_choices (shuffle : list nat → list nat)
    (d : dict L) :
  (∀ cs, shuffle cs ≡ₚ cs) →
  Dict.wf d →
  ∃ cs0 tr o,
    build_task_choice_list 0 (Dict.keys d)
      (num_batches_dict (MultitaskDataloader_init d)) = Ok cs0 ∧
    iter_trace shuffle (MultitaskDataloader_init d) = (tr, o) ∧
    List.length tr ≤ List.length (shuffle cs0) ∧
    Some <$> tr.*1
      = (λ c, Dict.keys d !! c) <$> take (List.length tr) (shuffle cs0).
Proof.
  intros Hperm Hwf.
  destruct (iter_trace_start shuffle d Hperm Hwf)
    as (cs0 & Hbuild & Hstart & _).
  destruct (iter_trace shuffle (MultitaskDataloader_init d)) as [tr o] eqn:Hrun.
  exists cs0, tr, o. split; [done|]. split; [done|].
  symmetry in Hstart. by apply iter_loop_task_order in Hstart.
Qed.

(** X4: over sources that supply what they declare, the batches a pass
    yields are, up to their order, all the batches of all the sources: each
    one is yielded once, whatever the shuffle. *)
Theorem iter_yields_every_batch_once (shuffle : list nat → list nat)
    (d : dict L) :
  (∀ cs, shuffle cs ≡ₚ cs) →
  Dict.wf d →
  (∀ t l, (t, l) ∈ d → loader_len l = List.length (loader_batches l)) →
  ∃ ys,
    MultitaskDataloader_iter shuffle (MultitaskDataloader_init d)
      = (ys, Finished) ∧
    ys ≡ₚ concat (loader_batches <$> Dict.values d).
Proof.
  intros Hperm Hwf Hdecl.
  destruct (iter_trace_finishes shuffle d Hperm Hwf)
    as (tr & Htrace & _ & Htr).
  { intros t l Hin. rewrite (Hdecl t l Hin). done. }
  exists tr.*2. split; [unfold MultitaskDataloader_iter; by rewrite Htrace|].
  destruct (iter_trace_sources shuffle d tr Finished Hwf Htrace) as [_ Hkeys].
  rewrite <- tagged_batches_snd. apply fmap_Permutation.
  rewrite (trace_Permutation_by_task (Dict.keys d) tr Hwf Hkeys) at 1.
  apply eq_ind with (P := λ x, x ≡ₚ _) (x := concat ((λ '(t, l), (t,.) <$> loader_batches l) <$> d)); [done|].
  f_equal. unfold Dict.keys. rewrite <- list_fmap_compose.
  apply list_fmap_ext. intros i [t l] Hi. simpl.
  assert (Hin : (t, l) ∈ d) by by eapply list_elem_of_lookup_2.
  rewrite (Htr t l Hin), (Hdecl t l Hin). by rewrite take_ge.
Qed.

(** X5: however a pass ends, the batches it yields from one task are the
    first batches of that task's iterator, in the iterator's order and none
    of them twice, and every yielded batch comes from a task of the
    dictionary. *)
Theorem iter_keeps_source_order (shuffle : list nat → list nat)
    (d : dict L) tr o :
  Dict.wf d →
  iter_trace shuffle (MultitaskDataloader_init d) = (tr, o) →
  (∀ t l, (t, l) ∈ d →
     ∃ k, k ≤ List.length (loader_batches l) ∧
          (supplied_by t tr).*2 = take k (loader_batches l)) ∧
  (∀ t b, (t, b) ∈ tr → t ∈ Dict.keys d).
Proof.
  intros Hwf Hrun.
  destruct (iter_trace_sources shuffle d tr o Hwf Hrun) as [Hprefix Hkeys].
  split.
  - intros t l Hin. destruct (Hprefix t l Hin) as (k & Hk & Heq).
    exists k. split; [done|]. rewrite Heq, <- list_fmap_compose.
    apply list_fmap_id.
  - intros t b Hin. by apply (Hkeys (t, b)).
Qed.

End SamplerFacts.

(** ** Batch tagging and the trainer's loaders *)

Lemma Dict_set_fresh {V : Type} (d : dict V) (k : string) (v : V) :
  k ∉ Dict.keys d → Dict.set d k v = d ++ [(k, v)].
Proof.
  unfold Dict.keys. induction d as [|[k' v'] d IH]; simpl; [done|].
  rewrite not_elem_of_cons. intros [Hne Hnin].
  rewrite decide_False by done. by rewrite IH.
Qed.

Lemma Dict_get_fmap {V W : Type} (f : V → W) (d : dict V) (k : string) :
  Dict.get (prod_map id f <$> d) k = f <$> Dict.get d k.
Proof.
  induction d as [|[k' v'] d IH]; simpl; [done|].
  destruct (decide (k' = k)); done.
Qed.

(** A comprehension over items with distinct keys, none of them in the
    dictionary it extends, adds one entry per item, in order. *)
Lemma dict_comp_Ok {V W : Type} (f : string → V → result W)
    (g : string → V → W) (items : list (string * V)) (acc : dict W) :
  NoDup items.*1 →
  (∀ k, k ∈ items.*1 → k ∉ Dict.keys acc) →
  (∀ k v, (k, v) ∈ items → f k v = Ok (g k v)) →
  dict_comp f items acc = Ok (acc ++ ((λ '(k, v), (k, g k v)) <$> items)).
Proof.
  revert acc. induction items as [|[k v] items IH]; intros acc Hnd Hfresh Hf.
  - simpl. by rewrite app_nil_r.
  - simpl in Hnd. apply NoDup_cons in Hnd as [Hk Hnd]. simpl.
    rewrite (Hf k v) by (apply elem_of_cons; by left). simpl.
    rewrite Dict_set_fresh by (apply Hfresh; apply elem_of_cons; by left).
    rewrite IH; [by rewrite <- app_assoc | done | |].
    + intros k' Hk'. unfold Dict.keys. rewrite fmap_app. simpl.
      intros [Hin|Hin]%elem_of_app.
      * apply (Hfresh k'); [apply elem_of_cons; by right | done].
      * apply elem_of_cons in Hin as [->|Hin]; [done|].
        by apply elem_of_nil in Hin.
    + intros k' v' Hin. apply Hf. apply elem_of_cons. by right.
Qed.

Section TrainerFacts.

Context {T Ex Collate : Type}.
Variable torch_pass :
  list Ex → nat → Sampler Ex → Collate → nat * list (dict T).

Implicit Types (self : @MultitaskTrainer Ex Collate).


(** With a training set, [get_single_train_dataloader] returns the wrapper
    of a fresh loader, whatever dataset it is given. *)
Lemma get_single_train_dataloader_Some self datasets (t : string)
    (data : list Ex) :
  train_dataset self = Some datasets →
  get_single_train_dataloader torch_pass self t data
  = Ok (DataLoaderWithTaskname_init t
          (torch_DataLoader torch_pass data (train_batch_size (args self))
             (if decide (local_rank (args self) = (-1)%Z)
              then RandomSampler data else DistributedSampler data)
             (data_collator self))).
Proof. unfold get_single_train_dataloader. by intros ->. Qed.

(** The sources of the loader that [get_train_dataloader] returns. *)
Lemma get_train_dataloader_Some self datasets :
  train_dataset self = Some datasets →
  Dict.wf datasets →
  ∃ sources : dict (@DataLoaderWithTaskname T Ex),
    get_train_dataloader torch_pass self
      = Ok (MultitaskDataloader_init sources) ∧
    Dict.keys sources = Dict.keys datasets ∧
    (dataset <$> Dict.values sources) = Dict.values datasets ∧
    (∀ t w, (t, w) ∈ sources →
       task_name w = t ∧ batch_size w = train_batch_size (args self) ∧
       Dict.get datasets t = Some (dataset w)).
Proof.
  intros Hds Hwf. unfold get_train_dataloader. rewrite Hds.
  erewrite dict_comp_Ok; [| exact Hwf | intros k _; apply not_elem_of_nil
                          | intros k v _; by eapply get_single_train_dataloader_Some].
  simpl. eexists. split; [done|].
  unfold Dict.keys, Dict.values, Dict.items.
  split; [|split].
  - rewrite <- list_fmap_compose. apply list_fmap_ext. by intros i [t data] _.
  - rewrite <- !list_fmap_compose. apply list_fmap_ext. by intros i [t data] _.
  - intros t w ([t' data] & [= -> ->] & Hin)%list_elem_of_fmap. simpl.
    split; [done|]. split; [done|]. by apply DictFacts.elem_of_get.
Qed.

(** X6: a tagged batch keeps every field of the collated batch under its
    name, the field called "task_name" apart, and the wrapper yields one
    tagged batch for each batch of the wrapped loader, in order. *)
Theorem tagged_batches_keep_fields (self : @DataLoaderWithTaskname T Ex)
    (i : nat) (batch : dict T) :
  dl_batches (data_loader self) !! i = Some batch →
  List.length (DataLoaderWithTaskname_iter self)
    = List.length (dl_batches (data_loader self)) ∧
  ∃ tagged,
    DataLoaderWithTaskname_iter self !! i = Some tagged ∧
    ∀ k, k ≠ "task_name" →
      Dict.get tagged k = BTensor <$> Dict.get batch k.
Proof.
  intros Hi. unfold DataLoaderWithTaskname_iter.
  split; [by rewrite length_fmap|].
  exists (tag_batch self batch). split.
  - by apply (list_lookup_fmap_Some_2 (tag_batch self)).
  - intros k Hk. unfold tag_batch.
    rewrite DictFacts.get_set_ne by done. apply Dict_get_fmap.
Qed.

(** X7: for a trainer whose training set maps task names to datasets,
    [get_train_dataloader] returns a [MultitaskDataloader] over the same
    task names in the same order; the source of each task carries that
    task's name, wraps that task's dataset and has the trainer's batch size;
    and the loader's [dataset] placeholder list is as long as all the
    datasets together. *)
Theorem get_train_dataloader_sources self datasets :
  train_dataset self = Some datasets →
  Dict.wf datasets →
  ∃ m,
    get_train_dataloader torch_pass self = Ok m ∧
    task_name_list m = Dict.keys datasets ∧
    Dict.keys (dataloader_dict m) = Dict.keys datasets ∧
    (∀ t w, Dict.get (dataloader_dict m) t = Some w →
       task_name w = t ∧ batch_size w = train_batch_size (args self) ∧
       Dict.get datasets t = Some (dataset w)) ∧
    List.length (mt_dataset m)
      = sum_list (List.length <$> Dict.values datasets).
Proof.
  intros Hds Hwf.
  destruct (get_train_dataloader_Some self datasets Hds Hwf)
    as (sources & Hrun & Hkeys & Hvals & Hsrc).
  eexists. split; [exact Hrun|]. simpl. split; [done|]. split; [done|].
  split.
  - intros t w Hget. apply Hsrc. by apply DictFacts.get_Some_elem_of.
  - rewrite length_replicate, <- Hvals. f_equal.
    by rewrite <- list_fmap_compose.
Qed.


(** X9: in a pass over the loader that [get_train_dataloader] returns,
    however the pass ends, every batch yielded from the iterator of a task
    carries that task's name in its "task_name" field, and the task is one
    of the training set. *)
Theorem train_batches_carry_their_task (shuffle : list nat → list nat)
    self datasets :
  train_dataset self = Some datasets →
  Dict.wf datasets →
  ∃ m,
    get_train_dataloader torch_pass self = Ok m ∧
    ∀ tr o, iter_trace shuffle m = (tr, o) →
      ∀ t batch, (t, batch) ∈ tr →
        t ∈ Dict.keys datasets ∧
        Dict.get batch "task_name" = Some (BStr (mkStrIgnoreDevice t)).
Proof.
  intros Hds Hwf.
  destruct (get_train_dataloader_Some self datasets Hds Hwf)
    as (sources & Hrun & Hkeys & _ & Hsrc).
  eexists. split; [exact Hrun|]. intros tr o Htrace t batch Hin.
  assert (Hwf' : Dict.wf sources) by (unfold Dict.wf; by rewrite Hkeys).
  destruct (iter_trace_sources shuffle sources tr o Hwf' Htrace)
    as [Hprefix Htasks].
  assert (Ht : t ∈ Dict.keys sources) by apply (Htasks (t, batch) Hin).
  split; [by rewrite <- Hkeys|].
  unfold Dict.keys in Ht. apply list_elem_of_fmap in Ht as ([t' w] & -> & Hw).
  simpl in *. destruct (Hprefix t' w Hw) as (k & _ & Hsup).
  assert (Hin' : (t', batch) ∈ supplied_by t' tr)
    by (apply list_elem_of_filter; done).
  rewrite Hsup in Hin'.
  apply list_elem_of_fmap in Hin' as (b & [= <-] & Hb).
  apply elem_of_take in Hb as (j & Hb & _). simpl in Hb.
  unfold DataLoaderWithTaskname_iter in Hb.
  apply list_lookup_fmap_Some_1 in Hb as (inner & -> & _).
  unfold tag_batch. rewrite DictFacts.get_set_eq.
  by destruct (Hsrc t' w Hw) as (-> & _).
Qed.

End TrainerFacts.

(** ** More on [create]: when it returns, and what the models share *)

Section CreateFacts.

Context {Params Config Kwargs Output : Type}.
Variable pretrained : string → Config → string → Params.
Variable model_call : @heap Params → Model → Kwargs → Output.

Implicit Types (h : @heap Params) (cfgs : dict Config).
Implicit Types (items : list (string * ModelType)) (tmd : dict Model).

Lemma get_encoder_attr_name_class (m m' : Model) :
  class_name m = class_name m' →
  get_encoder_attr_name m = get_encoder_attr_name m'.
Proof. unfold get_encoder_attr_name. by intros ->. Qed.

Lemma init_submodules_length model_name config names (d : dict loc) h d' h' :
  init_submodules pretrained model_name config names d h = (d', h') →
  List.length h' = List.length h + List.length names.
Proof.
  revert d h. induction names as [|a0 names IH]; intros d h; simpl.
  - intros [= <- <-]. lia.
  - intros Hinit. apply IH in Hinit. rewrite length_app in Hinit.
    simpl in Hinit. lia.
Qed.

(** The submodules of a fresh model: one attribute for each name, each at a
    location allocated for it. *)
Lemma init_submodules_attrs model_name config names (d : dict loc) h d' h' :
  init_submodules pretrained model_name config names d h = (d', h') →
  (∀ a, is_Some (Dict.get d' a) ↔ a ∈ names ∨ is_Some (Dict.get d a)) ∧
  (∀ a l, Dict.get d' a = Some l →
     Dict.get d a = Some l ∨ List.length h ≤ l < List.length h').
Proof.
  revert d h. induction names as [|a0 names IH]; intros d h; simpl.
  - intros [= <- <-]. split.
    + intros a. split; [by right | intros [Hin|?]; [|done]].
      by apply elem_of_nil in Hin.
    + intros a l ?. by left.
  - intros Hinit.
    pose proof (init_submodules_length _ _ _ _ _ _ _ Hinit) as Hlen.
    rewrite length_app in Hlen. simpl in Hlen.
    apply IH in Hinit as [Hkeys Hlocs]. split.
    + intros a. rewrite Hkeys, DictFacts.get_set, elem_of_cons.
      destruct (decide (a0 = a)) as [->|Hne].
      * split; [intros _; left; by left | intros _; right; eauto].
      * split.
        -- intros [?|?]; [left; by right | by right].
        -- intros [[?|?]|?]; [congruence | by left | by right].
    + intros a l Hl. apply Hlocs in Hl as [Hl|Hl].
      * rewrite DictFacts.get_set in Hl.
        destruct (decide (a0 = a)) as [->|Hne]; [|by left].
        injection Hl as <-. right. lia.
      * rewrite length_app in Hl. simpl in Hl. right. lia.
Qed.

(** A fresh model: its class, its attributes and where they live. *)
Lemma from_pretrained_attrs model_type model_name config h model h1 :
  from_pretrained pretrained model_type model_name config h = (model, h1) →
  class_name model = mt_class_name model_type ∧
  (∀ a, (∃ l, getattr model a = Ok l) ↔ a ∈ mt_submodules model_type) ∧
  (∀ a l, getattr model a = Ok l → List.length h ≤ l < List.length h1) ∧
  List.length h ≤ List.length h1.
Proof.
  unfold from_pretrained.
  destruct (init_submodules _ _ _ _ _ _) as [d h2] eqn:Hinit.
  intros [= <- <-].
  pose proof (init_submodules_length _ _ _ _ _ _ _ Hinit) as Hlen.
  apply init_submodules_attrs in Hinit as [Hkeys Hlocs].
  split; [done|]. split; [|split; [|lia]].
  - intros a. unfold getattr; simpl. split.
    + intros [l Hl]. destruct (Dict.get d a) as [l'|] eqn:Hget; [|done].
      destruct (proj1 (Hkeys a)) as [?|[? ?]]; [by rewrite Hget | done | done].
    + intros Hin. destruct (proj2 (Hkeys a)) as [l Hl]; [by left|].
      exists l. by rewrite Hl.
  - intros a l. unfold getattr; simpl.
    destruct (Dict.get d a) as [l'|] eqn:Hget; [|done].
    intros [= <-]. by destruct (Hlocs a l' Hget) as [?|?].
Qed.


(** One iteration of the loop of [create], for a task that is loadable. *)
Lemma create_loop_step model_name cfgs t mt items shared tmd h :
  create_loop pretrained model_name cfgs ((t, mt) :: items) shared tmd h
  = (config ← Dict.getitem cfgs t;
     attr ← encoder_attr_of_type mt;
     '(shared', model') ←
       match shared with
       | None =>
           e ← getattr (from_pretrained pretrained mt model_name config h).1
                 attr;
           Ok (Some e, (from_pretrained pretrained mt model_name config h).1)
       | Some s =>
           Ok (Some s,
               setattr (from_pretrained pretrained mt model_name config h).1
                 attr s)
       end;
     create_loop pretrained model_name cfgs items shared'
       (Dict.set tmd t model')
       (from_pretrained pretrained mt model_name config h).2).
Proof.
  simpl. destruct (Dict.getitem cfgs t) as [config|e]; [|done]. simpl.
  destruct (from_pretrained pretrained mt model_name config h)
    as [model h1] eqn:Hfp.
  apply from_pretrained_attrs in Hfp as (Hclass & _).
  unfold encoder_attr_of_type.
  by rewrite (get_encoder_attr_name_class model
                {| class_name := mt_class_name mt; attrs := [] |}).
Qed.



(** The loop adds one model per task, in the order of the tasks, each of the
    class of its task. *)
Lemma create_loop_models model_name cfgs items shared tmd h s' tmd' h' :
  NoDup items.*1 →
  (∀ k, k ∈ items.*1 → k ∉ Dict.keys tmd) →
  create_loop pretrained model_name cfgs items shared tmd h
    = Ok (s', tmd', h') →
  ∃ ms : dict Model,
    tmd' = tmd ++ ms ∧ ms.*1 = items.*1 ∧
    Forall2 (λ m it, class_name m.2 = mt_class_name it.2) ms items.
Proof.
  revert shared tmd h.
  induction items as [|[t mt] items IH]; intros shared tmd h Hnd Hfresh.
  - simpl. intros [= <- <- <-]. exists []. by rewrite app_nil_r.
  - simpl in Hnd. apply NoDup_cons in Hnd as [Ht Hnd].
    rewrite create_loop_step.
    intros (config & _ & Hrun)%bind_Ok.
    apply bind_Ok in Hrun as (attr & _ & Hrun).
    apply bind_Ok in Hrun as ([shared' model'] & Hmodel & Hrun).
    destruct (from_pretrained pretrained mt model_name config h)
      as [model h1] eqn:Hfp. simpl in *.
    apply from_pretrained_attrs in Hfp as (Hclass & _).
    assert (Hclass' : class_name model' = mt_class_name mt).
    { destruct shared as [s|].
      - by injection Hmodel as _ <-.
      - apply bind_Ok in Hmodel as (e & _ & [= _ <-]). done. }
    rewrite Dict_set_fresh in Hrun by (apply Hfresh; apply elem_of_cons; by left).
    apply IH in Hrun as (ms & -> & Hkeys & Hcls); [|done|].
    + exists ((t, model') :: ms). rewrite <- app_assoc. split; [done|].
      split; [csimpl; by rewrite Hkeys|]. by constructor.
    + intros k Hk. unfold Dict.keys. rewrite fmap_app. simpl.
      intros [Hin|Hin]%elem_of_app.
      * apply (Hfresh k); [apply elem_of_cons; by right | done].
      * apply elem_of_cons in Hin as [->|Hin]; [done|].
        by apply elem_of_nil in Hin.
Qed.

(** Once the shared encoder is chosen, every further model brings modules of
    its own, and the one attribute the loop rebinds goes to the shared
    encoder: two task models never meet but there. *)
Lemma create_loop_share_only model_name cfgs items s tmd h s' tmd' h' :
  create_loop pretrained model_name cfgs items (Some s) tmd h
    = Ok (s', tmd', h') →
  s < List.length h →
  (∀ t m a l, Dict.get tmd t = Some m → getattr m a = Ok l →
     l < List.length h) →
  share_only s tmd →
  share_only s tmd'.
Proof.
  revert tmd h. induction items as [|[t mt] items IH]; intros tmd h.
  - simpl. by intros [= <- <- <-].
  - rewrite create_loop_step.
    intros (config & _ & Hrun)%bind_Ok Hs Hbound Hshare.
    apply bind_Ok in Hrun as (attr & _ & Hrun). simpl in Hrun.
    destruct (from_pretrained pretrained mt model_name config h)
      as [model h1] eqn:Hfp. simpl in *.
    apply from_pretrained_attrs in Hfp as (_ & _ & Hfresh & Hle).
    assert (Hnew : ∀ a l, getattr (setattr model attr s) a = Ok l →
                     l = s ∨ List.length h ≤ l < List.length h1).
    { intros a l. unfold getattr, setattr. simpl. rewrite DictFacts.get_set.
      case_decide; [intros [= <-]; by left|].
      intros Hl. right. apply (Hfresh a). by unfold getattr. }
    apply IH in Hrun; [done | lia | |].
    + intros t' m a l. rewrite DictFacts.get_set.
      case_decide; [intros [= <-] Hl | intros Hm Hl].
      * apply Hnew in Hl as [->|?]; lia.
      * apply (Hbound t' m a l) in Hm; [lia | done].
    + intros t1 t2 m1 m2 a1 a2 l Hne. rewrite !DictFacts.get_set.
      destruct (decide (t = t1)) as [<-|Hne1];
        destruct (decide (t = t2)) as [<-|Hne2]; [done | | |].
      * intros [= <-] Hm2 Hl1 Hl2.
        apply Hnew in Hl1 as [->|?]; [done|].
        apply (Hbound t2 m2 a2 l) in Hm2; [lia | done].
      * intros Hm1 [= <-] Hl1 Hl2.
        apply Hnew in Hl2 as [->|?]; [done|].
        apply (Hbound t1 m1 a1 l) in Hm1; [lia | done].
      * intros Hm1 Hm2. by apply (Hshare t1 t2 m1 m2 a1 a2 l).
Qed.

(** X13: in the model that [create] returns, the models of two different
    tasks have no module in common except the shared encoder: whatever
    attribute of one and attribute of the other refer to the same module,
    that module is the [encoder] of the [MultitaskModel]. *)
Theorem task_models_share_only_encoder model_name (mtd : dict ModelType)
    cfgs h mm h' :
  create pretrained model_name mtd cfgs h = Ok (mm, h') →
  ∀ s, encoder mm = Some s → share_only s (taskmodels_dict mm).
Proof.
  unfold create, Dict.items.
  intros ([[s0 tmd] h2] & Hloop & [= <- <-])%bind_Ok s. simpl. intros ->.
  destruct mtd as [|[t mt] items]; [done|].
  rewrite create_loop_step in Hloop.
  apply bind_Ok in Hloop as (config & _ & Hloop).
  apply bind_Ok in Hloop as (attr & _ & Hloop).
  apply bind_Ok in Hloop as ([shared' model'] & Hfirst & Hloop).
  apply bind_Ok in Hfirst as (e & Hget & [= <- <-]).
  destruct (from_pretrained pretrained mt model_name config h)
    as [model h1] eqn:Hfp. simpl in *.
  apply from_pretrained_attrs in Hfp as (_ & _ & Hfresh & Hle).
  pose proof (create_loop_shared pretrained _ _ _ _ _ _ _ _ _ Hloop)
    as ([= <-] & _).
  eapply create_loop_share_only; [exact Hloop | | |].
  - by apply Hfresh in Hget as [_ ?].
  - intros t' m a l. simpl. case_decide; [|done].
    intros [= <-] Hl. by apply Hfresh in Hl as [_ ?].
  - intros t1 t2 m1 m2 a1 a2 l Hne. simpl.
    repeat case_decide; try done. congruence.
Qed.

Lemma create_models model_name (mtd : dict ModelType) cfgs h mm h' :
  Dict.wf mtd →
  create pretrained model_name mtd cfgs h = Ok (mm, h') →
  Dict.keys (taskmodels_dict mm) = Dict.keys mtd ∧
  Forall2 (λ m it, class_name m.2 = mt_class_name it.2)
    (taskmodels_dict mm) mtd.
Proof.
  unfold create, Dict.items.
  intros Hwf ([[s0 tmd] h2] & Hloop & [= <- <-])%bind_Ok. simpl.
  apply create_loop_models in Hloop as (ms & -> & Hkeys & Hcls);
    [done | done |].
  intros k _. apply not_elem_of_nil.
Qed.



(** X12: on the model that [create] returns, [forward] answers for exactly
    the tasks of [model_type_dict]: for each of them it is the call of that
    task's model, and for every other name it raises the [KeyError] of the
    name. *)
Theorem created_model_routes_its_tasks model_name (mtd : dict ModelType)
    cfgs h mm h' (hh : heap) (t : string) (kwargs : Kwargs) :
  Dict.wf mtd →
  create pretrained model_name mtd cfgs h = Ok (mm, h') →
  (t ∈ Dict.keys mtd →
     ∃ m, Dict.get (taskmodels_dict mm) t = Some m ∧
          forward model_call mm hh t kwargs = Ok (model_call hh m kwargs)) ∧
  (t ∉ Dict.keys mtd →
     forward model_call mm hh t kwargs = Err (KeyError t)).
Proof.
  intros Hwf Hcreate.
  destruct (create_models model_name mtd cfgs h mm h' Hwf Hcreate)
    as [Hkeys _].
  unfold forward, Dict.getitem. rewrite <- Hkeys. split.
  - intros Hin.
    destruct (Dict.get (taskmodels_dict mm) t) as [m|] eqn:Hget.
    + by exists m.
    + apply DictFacts.get_None in Hget. done.
  - intros Hnin. apply DictFacts.get_None in Hnin. by rewrite Hnin.
Qed.

End CreateFacts.

(** ** More on the collator: when a mapping comes out, and its shape *)

Section CollatorShape.

Context {scalar Obj : Type}.
Variable cast : dtype → scalar → scalar.
Variable default_collate_batch :
  list (@example scalar Obj) → result (option (dict (@tensor scalar))).

Implicit Types (features : list (@example scalar Obj)).
Implicit Types (first : dict (@value scalar)).
Implicit Types (items : list (string * @value scalar)).

Lemma list_comp_length {A C : Type} (f : A → result C) (xs : list A) ys :
  list_comp f xs = Ok ys → List.length ys = List.length xs.
Proof.
  revert ys. induction xs as [|x xs IH]; intros ys; simpl.
  - by intros [= <-].
  - intros (y & _ & Hrest)%bind_Ok.
    apply bind_Ok in Hrest as (ys' & Hys' & [= <-]). simpl.
    by rewrite (IH ys').
Qed.

(** A stacked column has the examples as its leading dimension. *)
Lemma stack_column_shape features k (t : tensor) :
  stack_column features k = Ok t →
  head (t_shape t) = Some (List.length features).
Proof.
  unfold stack_column, column, torch_stack.
  intros (vs & Hvs & Hstack)%bind_Ok.
  apply bind_Ok in Hstack as (ts & Hts & Hstack).
  apply list_comp_length in Hvs, Hts.
  destruct ts as [|t0 ts]; [done|].
  destruct (forallb _ _); [|done]. destruct (forallb _ _); [|done].
  injection Hstack as <-. simpl. f_equal. simpl in Hts. lia.
Qed.

(** Started on a mapping, the loop appends the stacks of the selected
    fields, in the order of the fields. *)
Lemma collate_fields_appends features items (b0 : dict tensor) r :
  NoDup items.*1 →
  (∀ k, k ∈ items.*1 → k ≠ "labels" → k ∉ Dict.keys b0) →
  collate_fields features items (Some b0) = Ok r →
  ∃ stacks : dict tensor,
    r = Some (b0 ++ stacks) ∧
    stacks.*1
      = (filter (λ it, is_stacked_field it.1 it.2 = true) items).*1 ∧
    Forall (λ kt, stack_column features kt.1 = Ok kt.2) stacks.
Proof.
  revert b0. induction items as [|[k v] items IH]; intros b0 Hnd Hfresh.
  - simpl. intros [= <-]. exists []. by rewrite app_nil_r.
  - simpl in Hnd. apply NoDup_cons in Hnd as [Hk Hnd].
    rewrite collate_fields_step, filter_cons. simpl.
    destruct (is_stacked_field k v) eqn:Hsel.
    + intros (t & Ht & Hrun)%bind_Ok. simpl in Hrun.
      assert (Hne : k ≠ "labels").
      { unfold is_stacked_field in Hsel.
        apply andb_prop in Hsel as [Hsel _]. apply andb_prop in Hsel as [Hsel _].
        by apply bool_decide_eq_true in Hsel. }
      rewrite Dict_set_fresh in Hrun
        by (apply Hfresh; [apply elem_of_cons; by left | done]).
      apply IH in Hrun as (stacks & -> & Hkeys & Hall); [|done|].
      * exists ((k, t) :: stacks). rewrite <- app_assoc. split; [done|].
        rewrite decide_True by done. csimpl. rewrite Hkeys.
        split; [done|]. by constructor.
      * intros k' Hk' Hne'. unfold Dict.keys. rewrite fmap_app. simpl.
        intros [Hin|Hin]%elem_of_app.
        -- apply (Hfresh k'); [apply elem_of_cons; by right | done | done].
        -- apply elem_of_cons in Hin as [->|Hin]; [done|].
           by apply elem_of_nil in Hin.
    + rewrite decide_False by done. apply IH; [done|].
      intros k' Hk'. apply Hfresh. apply elem_of_cons. by right.
Qed.

(** The labels branch of [collate_batch] on a first example that is a
    mapping. *)
Lemma collate_batch_Some_labelled first rest batch :
  collate_batch cast default_collate_batch (EDict first :: rest)
    = Ok (Some batch) →
  ∃ lab labels,
    Dict.get first "labels" = Some (VTensor lab) ∧
    (vs ← column (EDict first :: rest) "labels";
     torch_tensor cast vs (labels_dtype lab)) = Ok labels ∧
    collate_fields (EDict first :: rest) (Dict.items first)
      (Some [("labels", labels)]) = Ok (Some batch).
Proof.
  unfold collate_batch.
  destruct (Dict.get first "labels") as [[| s | lab]|] eqn:Hlab; simpl.
  - intros Hrun.
    destruct (collate_fields_None (EDict first :: rest) (Dict.items first))
      as [Hnone|[e He]]; rewrite Hrun in *; done.
  - done.
  - intros (b & Hb & Hrun)%bind_Ok.
    apply bind_Ok in Hb as (labels & Hlabels & [= <-]).
    exists lab, labels. split; [done|]. split; [|done].
    unfold labels_dtype. by destruct (bool_decide (t_dtype lab = int64)).
  - intros Hrun.
    destruct (collate_fields_None (EDict first :: rest) (Dict.items first))
      as [Hnone|[e He]]; rewrite Hrun in *; done.
Qed.

(** While [batch] is [None], the loop returns [None] exactly when it selects
    no field. *)
Lemma collate_fields_None_iff features items :
  collate_fields features items None = Ok None
  ↔ Forall (λ it, is_stacked_field it.1 it.2 = false) items.
Proof.
  induction items as [|[k v] items IH].
  - split; [intros _; constructor | done].
  - rewrite collate_fields_step, Forall_cons. simpl.
    destruct (is_stacked_field k v).
    + split; [|by intros [? _]].
      destruct (stack_column features k); done.
    + rewrite IH. split; [done | by intros [_ ?]].
Qed.

(** X14: [collate_batch] returns a mapping for examples that are mappings
    only if the first example has a tensor under "labels"; the keys of the
    mapping are then "labels" followed by the names of the other non-null,
    non-string fields of the first example, in the order of that example. *)
Theorem collate_batch_mapping_keys first rest batch :
  Dict.wf first →
  collate_batch cast default_collate_batch (EDict first :: rest)
    = Ok (Some batch) →
  (∃ lab, Dict.get first "labels" = Some (VTensor lab)) ∧
  Dict.keys batch
    = "labels"
      :: (filter (λ it, is_stacked_field it.1 it.2 = true) first).*1.
Proof.
  intros Hwf (lab & labels & Hlab & _ & Hrun)%collate_batch_Some_labelled.
  split; [eauto|].
  apply collate_fields_appends in Hrun as (stacks & [= ->] & Hkeys & _);
    [|done|].
  - unfold Dict.keys. csimpl. by rewrite Hkeys.
  - intros k _ Hne Hin. unfold Dict.keys in Hin. simpl in Hin.
    apply elem_of_cons in Hin as [->|Hin]; [done|].
    by apply elem_of_nil in Hin.
Qed.

(** X15: in a mapping that [collate_batch] returns, the leading dimension
    of every tensor is the number of examples. *)
Theorem collate_batch_batch_dimension first rest batch :
  Dict.wf first →
  collate_batch cast default_collate_batch (EDict first :: rest)
    = Ok (Some batch) →
  Forall (λ kt, head (t_shape kt.2) = Some (S (List.length rest))) batch.
Proof.
  intros Hwf (lab & labels & Hlab & Hlabels & Hrun)%collate_batch_Some_labelled.
  apply collate_fields_appends in Hrun as (stacks & [= ->] & _ & Hall);
    [|done|].
  - apply Forall_cons. split.
    + simpl.
      apply bind_Ok in Hlabels as (vs & Hvs & Htt).
      apply list_comp_length in Hvs.
      apply torch_tensor_dtype in Htt as (_ & -> & _). simpl.
      by rewrite Hvs.
    + eapply Forall_impl; [exact Hall|]. intros [k t] Ht. simpl in *.
      by apply stack_column_shape in Ht.
  - intros k _ Hne Hin. unfold Dict.keys in Hin. simpl in Hin.
    apply elem_of_cons in Hin as [->|Hin]; [done|].
    by apply elem_of_nil in Hin.
Qed.

(** X16: when the first example is a mapping with no label (no "labels" key,
    or [None] under it), [collate_batch] never returns a mapping: it returns
    [None] exactly when every field of the first example is [None] or a
    string, and raises in every other case. *)
Theorem collate_batch_unlabelled_result first rest :
  Dict.get first "labels" = None ∨ Dict.get first "labels" = Some VNone →
  (collate_batch cast default_collate_batch (EDict first :: rest) = Ok None
   ↔ ∀ k v, (k, v) ∈ first → k ≠ "labels" → v = VNone ∨ is_str v = true) ∧
  (∀ batch,
     collate_batch cast default_collate_batch (EDict first :: rest)
       ≠ Ok (Some batch)) ∧
  (¬ (∀ k v, (k, v) ∈ first → k ≠ "labels" → v = VNone ∨ is_str v = true) →
   ∃ e, collate_batch cast default_collate_batch (EDict first :: rest)
          = Err e).
Proof.
  intros Hlab.
  assert (Hrun : collate_batch cast default_collate_batch (EDict first :: rest)
                 = collate_fields (EDict first :: rest) first None).
  { unfold collate_batch. by destruct Hlab as [-> | ->]. }
  rewrite Hrun.
  assert (Hiff : collate_fields (EDict first :: rest) first None = Ok None
                 ↔ ∀ k v, (k, v) ∈ first → k ≠ "labels" →
                     v = VNone ∨ is_str v = true).
  { rewrite collate_fields_None_iff, Forall_forall. split.
    - intros Hall k v Hin Hne. specialize (Hall (k, v) Hin). simpl in Hall.
      unfold is_stacked_field in Hall.
      rewrite bool_decide_eq_true_2 in Hall by done. simpl in Hall.
      destruct v; simpl in *; eauto; discriminate.
    - intros Hall [k v] Hin. simpl. unfold is_stacked_field.
      destruct (decide (k = "labels")) as [->|Hne].
      + by rewrite bool_decide_eq_false_2 by (intros ?; done).
      + rewrite bool_decide_eq_true_2 by done. simpl.
        destruct (Hall k v Hin Hne) as [->|Hs]; [done|].
        rewrite Hs. by rewrite andb_false_r. }
  split; [done|].
  destruct (collate_fields_None (EDict first :: rest) first)
    as [Hnone|[e He]].
  - split; [by rewrite Hnone|]. intros Hnot. exfalso. apply Hnot.
    by apply (proj1 Hiff).
  - split; [by rewrite He|]. eauto.
Qed.

End CollatorShape.

(** ** The further theorems at the sample inputs *)

Lemma surplus_sources_declared (t : string) l :
  (t, l) ∈ surplus_sources →
  loader_len l ≤ List.length (loader_batches l).
Proof.
  intros Hin. repeat (apply elem_of_cons in Hin as [[= -> ->]|Hin]);
    [vm_compute; lia | vm_compute; lia | by apply elem_of_nil in Hin].
Defined.


Lemma iter_surplus_never_yielded_witness :
  ∃ tr,
    iter_trace reverse (MultitaskDataloader_init surplus_sources)
      = (tr, Finished) ∧
    MultitaskDataloader_iter reverse (MultitaskDataloader_init surplus_sources)
      = (tr.*2, Finished) ∧
    List.length tr.*2 = sum_list (loader_len <$> Dict.values surplus_sources) ∧
    (∀ t l, (t, l) ∈ surplus_sources →
       (supplied_by t tr).*2 = take (loader_len l) (loader_batches l)).
Proof.
  apply (iter_surplus_never_yielded reverse surplus_sources).
  - apply reverse_Permutation.
  - solve_wf.
  - apply surplus_sources_declared.
Defined.

Lemma iter_task_order_follows_choices_witness :
  ∃ cs0 tr o,
    build_task_choice_list 0 (Dict.keys short_sources)
      (num_batches_dict (MultitaskDataloader_init short_sources)) = Ok cs0 ∧
    iter_trace reverse (MultitaskDataloader_init short_sources) = (tr, o) ∧
    List.length tr ≤ List.length (reverse cs0) ∧
    Some <$> tr.*1
      = (λ c, Dict.keys short_sources !! c)
          <$> take (List.length tr) (reverse cs0).
Proof.
  apply (iter_task_order_follows_choices reverse short_sources).
  - apply reverse_Permutation.
  - solve_wf.
Defined.

Lemma sample_sources_supplied (t : string) l :
  (t, l) ∈ sample_sources → loader_len l = List.length (loader_batches l).
Proof.
  intros Hin. repeat (apply elem_of_cons in Hin as [[= -> ->]|Hin]);
    [reflexivity | reflexivity | by apply elem_of_nil in Hin].
Defined.

Lemma iter_yields_every_batch_once_witness :
  ∃ ys,
    MultitaskDataloader_iter reverse (MultitaskDataloader_init sample_sources)
      = (ys, Finished) ∧
    ys ≡ₚ concat (loader_batches <$> Dict.values sample_sources).
Proof.
  apply (iter_yields_every_batch_once reverse sample_sources).
  - apply reverse_Permutation.
  - solve_wf.
  - apply sample_sources_supplied.
Defined.

Lemma iter_keeps_source_order_witness :
  ∃ tr,
    iter_trace reverse (MultitaskDataloader_init short_sources)
      = (tr, Raised StopIteration) ∧
    (∀ t l, (t, l) ∈ short_sources →
       ∃ k, k ≤ List.length (loader_batches l) ∧
            (supplied_by t tr).*2 = take k (loader_batches l)) ∧
    (∀ t b, (t, b) ∈ tr → t ∈ Dict.keys short_sources).
Proof.
  eexists. split; [reflexivity|].
  apply (iter_keeps_source_order reverse short_sources _ (Raised StopIteration)).
  - solve_wf.
  - reflexivity.
Defined.

Lemma tagged_batches_keep_fields_witness :
  List.length (DataLoaderWithTaskname_iter
                 (sample_source "A" 6 3 [[("x", 1)]; [("x", 2)]; [("x", 3)]]))
    = 3 ∧
  ∃ tagged,
    DataLoaderWithTaskname_iter
      (sample_source "A" 6 3 [[("x", 1)]; [("x", 2)]; [("x", 3)]]) !! 1
      = Some tagged ∧
    ∀ k, k ≠ "task_name" →
      Dict.get tagged k = BTensor <$> Dict.get [("x", 2)] k.
Proof.
  apply (tagged_batches_keep_fields
           (sample_source "A" 6 3 [[("x", 1)]; [("x", 2)]; [("x", 3)]]) 1).
  reflexivity.
Defined.

Lemma get_train_dataloader_sources_witness :
  ∃ m,
    get_train_dataloader sample_torch_pass sample_trainer = Ok m ∧
    task_name_list m = ["A"; "B"] ∧
    Dict.keys (dataloader_dict m) = ["A"; "B"] ∧
    (∀ t w, Dict.get (dataloader_dict m) t = Some w →
       task_name w = t ∧ batch_size w = 8 ∧
       Dict.get [("A", [1; 2; 3]); ("B", [4; 5])] t = Some (dataset w)) ∧
    List.length (mt_dataset m) = 5.
Proof.
  apply (get_train_dataloader_sources sample_torch_pass sample_trainer
           [("A", [1; 2; 3]); ("B", [4; 5])]).
  - reflexivity.
  - solve_wf.
Defined.


Lemma train_batches_carry_their_task_witness :
  ∃ m,
    get_train_dataloader sample_torch_pass sample_trainer = Ok m ∧
    ∀ tr o, iter_trace reverse m = (tr, o) →
      ∀ t batch, (t, batch) ∈ tr →
        t ∈ ["A"; "B"] ∧
        Dict.get batch "task_name" = Some (BStr (mkStrIgnoreDevice t)).
Proof.
  apply (train_batches_carry_their_task sample_torch_pass reverse
           sample_trainer [("A", [1; 2; 3]); ("B", [4; 5])]).
  - reflexivity.
  - solve_wf.
Defined.




Lemma created_model_routes_its_tasks_witness :
  ∃ mm h',
    create sample_pretrained "bert-base-cased" sample_model_types
      sample_configs [] = Ok (mm, h') ∧
    ("ner" ∈ Dict.keys sample_model_types →
       ∃ m, Dict.get (taskmodels_dict mm) "ner" = Some m ∧
            forward (λ _ m (_ : unit), class_name m) mm h' "ner" tt
              = Ok (class_name m)) ∧
    ("qa" ∉ Dict.keys sample_model_types →
       forward (λ _ m (_ : unit), class_name m) mm h' "qa" tt
         = Err (KeyError "qa")).
Proof.
  eexists _, _. split; [reflexivity|]. split.
  - eapply proj1.
    eapply (created_model_routes_its_tasks sample_pretrained
              (λ _ m (_ : unit), class_name m) "bert-base-cased"
              sample_model_types sample_configs []);
      [solve_wf | reflexivity].
  - eapply proj2.
    eapply (created_model_routes_its_tasks sample_pretrained
              (λ _ m (_ : unit), class_name m) "bert-base-cased"
              sample_model_types sample_configs []);
      [solve_wf | reflexivity].
Defined.

Lemma task_models_share_only_encoder_witness :
  ∃ mm h',
    create sample_pretrained "bert-base-cased" sample_model_types
      sample_configs [] = Ok (mm, h') ∧
    ∀ s, encoder mm = Some s → share_only s (taskmodels_dict mm).
Proof.
  eexists _, _. split; [reflexivity|].
  eapply (task_models_share_only_encoder sample_pretrained "bert-base-cased"
           sample_model_types sample_configs []).
  reflexivity.
Defined.

Lemma collate_batch_mapping_keys_witness :
  ∃ batch,
    collate_batch (λ _ x, x) (λ _, Ok None)
      [labelled_example 1 10 "a"; labelled_example 2 20 "b"] = Ok (Some batch)
    ∧ (∃ lab,
         Dict.get [("labels", VTensor (scalar_tensor int64 1));
                   ("x", VTensor (scalar_tensor float32 10));
                   ("text", VStr "a"); ("idx", VNone)] "labels"
           = Some (VTensor lab))
    ∧ Dict.keys batch = ["labels"; "x"].
Proof.
  eexists. split; [reflexivity|].
  apply (collate_batch_mapping_keys (λ _ x, x) (λ _, Ok None)
           [("labels", VTensor (scalar_tensor int64 1));
            ("x", VTensor (scalar_tensor float32 10));
            ("text", VStr "a"); ("idx", VNone)]
           [labelled_example 2 20 "b"]).
  - solve_wf.
  - reflexivity.
Defined.

Lemma collate_batch_batch_dimension_witness :
  ∃ batch,
    collate_batch (λ _ x, x) (λ _, Ok None)
      [labelled_example 1 10 "a"; labelled_example 2 20 "b"] = Ok (Some batch)
    ∧ Forall (λ kt, head (t_shape kt.2) = Some 2) batch.
Proof.
  eexists. split; [reflexivity|].
  apply (collate_batch_batch_dimension (λ _ x, x) (λ _, Ok None)
           [("labels", VTensor (scalar_tensor int64 1));
            ("x", VTensor (scalar_tensor float32 10));
            ("text", VStr "a"); ("idx", VNone)]
           [labelled_example 2 20 "b"]).
  - solve_wf.
  - reflexivity.
Defined.

Lemma collate_batch_unlabelled_result_witness :
  collate_batch (scalar := nat) (Obj := unit) (λ _ x, x) (λ _, Ok None)
    [EDict [("text", VStr "a"); ("idx", VNone)];
     EDict [("text", VStr "b"); ("idx", VNone)]] = Ok None
  ∧ ∀ batch,
      collate_batch (scalar := nat) (Obj := unit) (λ _ x, x) (λ _, Ok None)
        [EDict [("text", VStr "a"); ("idx", VNone)];
         EDict [("text", VStr "b"); ("idx", VNone)]]
      ≠ Ok (Some batch).
Proof.
  destruct (collate_batch_unlabelled_result (scalar := nat) (Obj := unit)
              (λ _ x, x) (λ _, Ok None)
              [("text", VStr "a"); ("idx", VNone)]
              [EDict [("text", VStr "b"); ("idx", VNone)]])
    as (_ & Hnever & _); [left; reflexivity|].
  split; [reflexivity | exact Hnever].
Defined.
